(** * smartdispatch: command unfolding and naming

    A shallow embedding of [smartdispatch/smartdispatch.py] (Python 2) and the
    properties of its command and name generation.

    Python values are embedded as follows: [str] as [string], [int] as [Z],
    an optional argument defaulting to [None] as [option], a list as [list],
    a raised exception as the [Raise] branch of [exc].  The helpers of
    [smartdispatch.utils] and the two classes of [smartdispatch.argument] are
    not part of the module under study: they enter as the fields of the
    records [Utils] and [FoldedArgument]. *)

From Stdlib Require Import List String Ascii Bool Arith ZArith Lia.
From Stdlib Require Import DecimalString.
Import ListNotations.

Local Open Scope string_scope.
Local Open Scope list_scope.

(** ** Exceptions *)

Inductive pyerror : Type :=
| IndexError
| KeyError
| ValueError (msg : string).

Inductive exc (A : Type) : Type :=
| Ok (a : A)
| Raise (e : pyerror).
Arguments Ok {A} a.
Arguments Raise {A} e.

Definition bind {A B : Type} (c : exc A) (k : A -> exc B) : exc B :=
  match c with
  | Ok a => k a
  | Raise e => Raise e
  end.

Notation "x <- c ;; k" := (bind c (fun x => k))
  (at level 61, c at next level, right associativity).

(** ** The methods of [str] the module calls *)

Module PyStr.

(** [string.whitespace] of Python 2: tab, newline, vertical tab, form feed,
    carriage return and space. *)
Definition isspace (c : ascii) : bool :=
  let n := nat_of_ascii c in
  (Nat.leb 9 n && Nat.leb n 13) || Nat.eqb n 32.

Definition newline : ascii := ascii_of_nat 10.

Fixpoint lstrip (s : string) : string :=
  match s with
  | EmptyString => EmptyString
  | String c s' => if isspace c then lstrip s' else s
  end.

Fixpoint rstrip (s : string) : string :=
  match s with
  | EmptyString => EmptyString
  | String c s' =>
      match rstrip s' with
      | EmptyString => if isspace c then EmptyString else String c EmptyString
      | r => String c r
      end
  end.

(** [s.strip()] *)
Definition strip (s : string) : string := lstrip (rstrip s).

(** [s.split(sep)] for a separator of one character; the empty string splits
    into one empty field. *)
Fixpoint split_char (sep : ascii) (s : string) : list string :=
  match s with
  | EmptyString => [EmptyString]
  | String c s' =>
      if Ascii.eqb c sep then EmptyString :: split_char sep s'
      else match split_char sep s' with
           | field :: fields => String c field :: fields
           | [] => [String c EmptyString]
           end
  end.

(** [s.split()]: fields are maximal runs of non-whitespace characters, and
    no field is empty. *)
Fixpoint split (s : string) : list string :=
  match s with
  | EmptyString => []
  | String c s' =>
      if isspace c then split s'
      else match s' with
           | EmptyString => [String c EmptyString]
           | String c' _ =>
               if isspace c' then String c EmptyString :: split s'
               else match split s' with
                    | field :: fields => String c field :: fields
                    | [] => [String c EmptyString]
                    end
           end
  end.

(** [sep.join(l)] *)
Definition join (sep : string) (l : list string) : string := String.concat sep l.

(** [s[n:]] for [0 <= n] *)
Fixpoint drop (n : nat) (s : string) : string :=
  match n, s with
  | O, _ => s
  | S _, EmptyString => EmptyString
  | S n', String _ s' => drop n' s'
  end.

(** [s[k:]]: a negative [k] counts from the end, and an index out of range
    is clipped; [None] is the slice [s[None:]], the whole string. *)
Definition slice_from (k : option Z) (s : string) : string :=
  match k with
  | None => s
  | Some k =>
      let n := Z.of_nat (String.length s) in
      let start := if (k <? 0)%Z then Z.max (n + k) 0 else Z.min k n in
      drop (Z.to_nat start) s
  end.

(** [s[i:j]] for [0 <= i] and [0 <= j] *)
Definition slice (i j : nat) (s : string) : string := substring i (j - i) s.

(** [old in s] *)
Fixpoint contains (old s : string) : bool :=
  prefix old s ||
  match s with
  | EmptyString => false
  | String _ s' => contains old s'
  end.

(** [s.replace(old, new)] for a non-empty [old]: a left to right scan that
    replaces each occurrence and resumes after it.  [skip] counts the
    characters of the occurrence still to be passed over. *)
Fixpoint replace_from (old new : string) (skip : nat) (s : string) : string :=
  match s with
  | EmptyString => EmptyString
  | String c s' =>
      match skip with
      | S k => replace_from old new k s'
      | O =>
          if prefix old s
          then new ++ replace_from old new (String.length old - 1) s'
          else String c (replace_from old new 0 s')
      end
  end.

Definition replace (old new s : string) : string := replace_from old new 0 s.

End PyStr.

(** ** [itertools.product] *)

Module Itertools.

(** The documented equivalent of [itertools.product] applied to the pools:
    [result = [[]]], then for each pool
    [result = [x+[y] for x in result for y in pool]]. *)
Definition product {A : Type} (pools : list (list A)) : list (list A) :=
  fold_left
    (fun result pool => flat_map (fun x => map (fun y => x ++ [y]) pool) result)
    pools [[]].

End Itertools.

(** ** [re.finditer] over an alternation of named groups *)

Module Re.

(** A pattern is represented by its anchored matcher: applied to the text
    that starts at a candidate position, it returns the length of the match
    the backtracking engine finds there, if any. *)
Definition pattern : Type := string -> option nat.

(** The pattern ["(" + "|".join("(?P<name>regex)" ...) + ")"]: named
    alternatives in the order they are written. *)
Definition alternation : Type := list (string * pattern).

Record Match : Type := {
  m_start : nat;
  m_end : nat;
  groupdict : list (string * option string)
}.

(** [groupdict[name]] *)
Fixpoint getitem (gd : list (string * option string)) (name : string)
  : exc (option string) :=
  match gd with
  | [] => Raise KeyError
  | (k, v) :: gd' => if String.eqb k name then Ok v else getitem gd' name
  end.

(** The alternatives are tried in order at one position; the first that
    matches gives the match, its group holds the matched text and the groups
    of the other alternatives are [None]. *)
Fixpoint match_here (alts : alternation) (s : string)
  : option (nat * list (string * option string)) :=
  match alts with
  | [] => None
  | (name, p) :: rest =>
      match p s with
      | Some n =>
          Some (n, (name, Some (substring 0 n s))
                     :: map (fun a => (fst a, None)) rest)
      | None =>
          match match_here rest s with
          | Some (n, gd) => Some (n, (name, None) :: gd)
          | None => None
          end
      end
  end.

(** The scan of [finditer] (Python 2.7): search from the current position for
    the first position where the pattern matches, report it, and resume at the
    end of the match, or one character further after an empty match.  [s] is
    the text from position [pos] on, [skip] the number of characters of the
    last match still to be passed over. *)
Fixpoint scan (alts : alternation) (pos skip : nat) (s : string) : list Match :=
  match skip with
  | S k =>
      match s with
      | EmptyString => []
      | String _ s' => scan alts (S pos) k s'
      end
  | O =>
      match match_here alts s with
      | Some (n, gd) =>
          {| m_start := pos; m_end := pos + n; groupdict := gd |}
            :: match s with
               | EmptyString => []
               | String _ s' => scan alts (S pos) (n - 1) s'
               end
      | None =>
          match s with
          | EmptyString => []
          | String _ s' => scan alts (S pos) 0 s'
          end
      end
  end.

Definition finditer (regex : alternation) (text : string) : list Match :=
  scan regex 0 0 text.

End Re.

(** ** [datetime] *)

Record datetime : Type := {
  year : nat; month : nat; day : nat;
  hour : nat; minute : nat; second : nat
}.

(** A number in decimal, and in decimal on two digits at least. *)
Definition decimal (n : nat) : string := NilEmpty.string_of_uint (Nat.to_uint n).

Definition pad2 (n : nat) : string :=
  if Nat.ltb n 10 then "0" ++ decimal n else decimal n.

(** [d.strftime('%Y-%m-%d_%H-%M-%S_')] *)
Definition strftime (d : datetime) : string :=
  decimal (year d) ++ "-" ++ pad2 (month d) ++ "-" ++ pad2 (day d) ++ "_"
  ++ pad2 (hour d) ++ "-" ++ pad2 (minute d) ++ "-" ++ pad2 (second d) ++ "_".

(** ** What the module imports *)

(** [smartdispatch.utils] *)
Record Utils : Type := {
  slugify : string -> string;
  escape : string -> string;
  hex2str : string -> string;
  generate_uid_from_string : string -> string
}.

(** An instance of a class of [smartdispatch.argument]: its [name], its
    [regex] (as the matcher of the pattern) and its [unfold] method. *)
Record FoldedArgument : Type := {
  name : string;
  regex : Re.pattern;
  unfold : string -> exc (list string)
}.

(** [smartdispatch.argument] *)
Record Argument : Type := {
  RangeFoldedArgument : FoldedArgument;
  EnumerationFoldedArgument : FoldedArgument
}.

(** ** [smartdispatch.smartdispatch] *)

Definition UID_TAG : string := "{UID}".

(** [if m is not None: m = min(-m, m)] *)
Definition normalize_max_length (m : option Z) : option Z :=
  match m with
  | None => None
  | Some m => Some (Z.min (- m) m)
  end.

Definition generate_name_from_command (U : Utils) (command : string)
  (max_length_arg max_length : option Z) : string :=
  let max_length_arg := normalize_max_length max_length_arg in
  let max_length := normalize_max_length max_length in
  let name :=
    PyStr.join "_"
      (map (fun argvalue => PyStr.slice_from max_length_arg (slugify U argvalue))
           (PyStr.split command)) in
  PyStr.slice_from max_length name.

(** [l[0]] and [l[-1]] *)
Definition first {A : Type} (l : list A) : exc A :=
  match l with
  | [] => Raise IndexError
  | x :: _ => Ok x
  end.

Definition final {A : Type} (l : list A) : exc A :=
  match rev l with
  | [] => Raise IndexError
  | x :: _ => Ok x
  end.

(** [name[-1] += suffix] *)
Definition extend_last (name : list string) (suffix : string) : exc (list string) :=
  x <- final name ;;
  Ok (removelast name ++ [(x ++ suffix)%string]).

(** The state the [def] statement leaves behind: the default of [prefix] is
    evaluated once, when the function is defined. *)
Record Defaults : Type := {
  prefix_default : string
}.

(** Executing [def generate_name_from_arguments(..., prefix=datetime.now()
    .strftime('%Y-%m-%d_%H-%M-%S_'))] at the time [now]. *)
Definition define_generate_name_from_arguments (now : datetime) : Defaults :=
  {| prefix_default := strftime now |}.

(** One turn of [for argvalues in arguments]. *)
Definition name_step (U : Utils) (max_length_arg : option Z)
  (name : list string) (argvalues : list string) : exc (list string) :=
  let argvalues := map (slugify U) argvalues in
  x <- first argvalues ;;
  let name := name ++ [PyStr.slice_from max_length_arg x] in
  if Nat.ltb 1 (List.length argvalues)
  then y <- final argvalues ;;
       extend_last name ("-" ++ PyStr.slice_from max_length_arg y)%string
  else Ok name.

Fixpoint name_loop (U : Utils) (max_length_arg : option Z)
  (arguments : list (list string)) (name : list string) : exc (list string) :=
  match arguments with
  | [] => Ok name
  | argvalues :: rest =>
      name' <- name_step U max_length_arg name argvalues ;;
      name_loop U max_length_arg rest name'
  end.

(** [prefix] is [None] when the caller omits it; the call happens at the
    time [now], which the body never reads. *)
Definition generate_name_from_arguments (D : Defaults) (now : datetime)
  (U : Utils) (arguments : list (list string))
  (max_length_arg max_length : option Z) (prefix : option string) : exc string :=
  let prefix := match prefix with Some p => p | None => prefix_default D end in
  let max_length_arg := normalize_max_length max_length_arg in
  let max_length := normalize_max_length max_length in
  name <- name_loop U max_length_arg arguments [] ;;
  let name := PyStr.join "_" name in
  Ok (prefix ++ PyStr.slice_from max_length name)%string.

(** [fileobj] is given by what [fileobj.read()] returns. *)
Definition get_commands_from_file (fileobj : string) : list string :=
  PyStr.split_char PyStr.newline (PyStr.strip fileobj).

Definition get_commands_from_arguments (arguments : list (list string))
  : list string :=
  map (PyStr.join "") (Itertools.product arguments).

(** The master pattern built from the arguments' names and patterns. *)
Definition master_regex (arguments : list FoldedArgument) : Re.alternation :=
  map (fun arg => (name arg, regex arg)) arguments.

Section UnfoldLoop.

(** The loop of [unfold_arguments] appends two kinds of items, the
    one-element list of a piece of plain text and the list a folded
    argument unfolds to.  It is written once over the type [X] of the
    items, so that it can also be run keeping their kind. *)
Context {X : Type} (literal : string -> X) (folded : list string -> X).

(** [for argument in arguments:
       if groupdict[argument.name] is not None:
         unfolded_arguments.append(argument.unfold(groupdict[argument.name]))] *)
Fixpoint unfold_match (arguments : list FoldedArgument)
  (gd : list (string * option string)) (unfolded : list X) : exc (list X) :=
  match arguments with
  | [] => Ok unfolded
  | argument :: rest =>
      g <- Re.getitem gd (name argument) ;;
      match g with
      | Some captured =>
          values <- unfold argument captured ;;
          unfold_match rest gd (unfolded ++ [folded values])
      | None => unfold_match rest gd unfolded
      end
  end.

(** [for match in re.finditer(regex, text)], from the state
    [(pos, unfolded_arguments)]. *)
Fixpoint unfold_loop (text : string) (arguments : list FoldedArgument)
  (matches : list Re.Match) (pos : nat) (unfolded : list X)
  : exc (nat * list X) :=
  match matches with
  | [] => Ok (pos, unfolded)
  | m :: rest =>
      let unfolded := unfolded ++ [literal (PyStr.slice pos (Re.m_start m) text)] in
      unfolded' <- unfold_match arguments (Re.groupdict m) unfolded ;;
      unfold_loop text arguments rest (Re.m_end m) unfolded'
  end.

Definition unfold_run (A : Argument) (text : string) : exc (list X) :=
  let arguments := [RangeFoldedArgument A; EnumerationFoldedArgument A] in
  let regex := master_regex arguments in
  st <- unfold_loop text arguments (Re.finditer regex text) 0 [] ;;
  let (pos, unfolded) := st in
  Ok (unfolded ++ [literal (PyStr.drop pos text)]).

End UnfoldLoop.

Definition unfold_arguments (U : Utils) (A : Argument) (arguments : list string)
  : exc (list (list string)) :=
  let text := escape U (PyStr.join " " arguments) in
  unfolded <- unfold_run (fun s => [s]) (fun values => values) A text ;;
  Ok (map (map (hex2str U)) unfolded).

Definition replace_uid_tag (U : Utils) (commands : list string) : list string :=
  map (fun command =>
         PyStr.replace "{UID}" (generate_uid_from_string U command) command)
      commands.

(** ** The kind of an item of the unfolded arguments *)

Inductive Segment : Type :=
| Literal (text : string)
| Folded (values : list string).

Definition segment_values (seg : Segment) : list string :=
  match seg with
  | Literal s => [s]
  | Folded values => values
  end.

Definition is_literal (seg : Segment) : bool :=
  match seg with Literal _ => true | Folded _ => false end.

(** [unfold_arguments] run with the kind of each item kept, before the
    values are passed through [hex2str]. *)
Definition unfold_segments (U : Utils) (A : Argument) (arguments : list string)
  : exc (list Segment) :=
  unfold_run Literal Folded A (escape U (PyStr.join " " arguments)).

(** ** Instances of the imported helpers, for running the module *)

Module SpecModel.

(** The hexadecimal digit of a value below sixteen, and the value of a
    hexadecimal digit. *)
Definition hexdigit (n : N) : ascii :=
  match n with
  | 0 => "0" | 1 => "1" | 2 => "2" | 3 => "3" | 4 => "4" | 5 => "5"
  | 6 => "6" | 7 => "7" | 8 => "8" | 9 => "9" | 10 => "a" | 11 => "b"
  | 12 => "c" | 13 => "d" | 14 => "e" | _ => "f"
  end%N%char.

Definition hexvalue (c : ascii) : option nat :=
  let n := nat_of_ascii c in
  if Nat.leb 48 n && Nat.leb n 57 then Some (n - 48)
  else if Nat.leb 97 n && Nat.leb n 102 then Some (n - 87)
  else None.

(** Modelled from the spec: [utils.slugify] is missing; the Slug Normalizer
    maps a string to a token of letters, digits and limited punctuation.
    Here letters, digits, [_], [-] and [.] are kept, white space becomes [_]
    and every other character is dropped. *)
Definition slug_safe (c : ascii) : bool :=
  let n := nat_of_ascii c in
  (Nat.leb 48 n && Nat.leb n 57) || (Nat.leb 65 n && Nat.leb n 90)
  || (Nat.leb 97 n && Nat.leb n 122) || Nat.eqb n 95 || Nat.eqb n 45
  || Nat.eqb n 46.

Fixpoint slugify (s : string) : string :=
  match s with
  | EmptyString => EmptyString
  | String c s' =>
      if slug_safe c then String c (slugify s')
      else if PyStr.isspace c then String "_" (slugify s')
      else slugify s'
  end.

(** Modelled from the spec: [utils.generate_uid_from_string] is missing; the
    UID is a short deterministic digest of the command's text.  Here a
    checksum of the character codes, written as four hexadecimal digits. *)
Fixpoint checksum (s : string) (acc : N) : N :=
  match s with
  | EmptyString => acc
  | String c s' => checksum s' ((31 * acc + N_of_ascii c) mod 65536)%N
  end.

Definition generate_uid_from_string (s : string) : string :=
  let n := checksum s 7%N in
  String (hexdigit (n / 4096 mod 16)%N)
    (String (hexdigit (n / 256 mod 16)%N)
       (String (hexdigit (n / 16 mod 16)%N)
          (String (hexdigit (n mod 16)%N) EmptyString))).

(** Modelled from the spec: [utils.escape] and [utils.hex2str] are missing;
    escaping encodes reversibly what the scanner could misread.  Here a
    character written after a backslash is encoded as [\x] and the two
    hexadecimal digits of its code, and [hex2str] decodes it. *)
Fixpoint escape (s : string) : string :=
  match s with
  | EmptyString => EmptyString
  | String c s' =>
      if Ascii.eqb c "\" then
        match s' with
        | EmptyString => String c EmptyString
        | String d s'' =>
            String "\" (String "x"
              (String (hexdigit (N_of_ascii d / 16)%N)
                 (String (hexdigit (N_of_ascii d mod 16)%N) (escape s''))))
        end
      else String c (escape s')
  end.

Fixpoint hex2str (s : string) : string :=
  match s with
  | String c1 ((String c2 (String h1 (String h2 s'))) as rest) =>
      if Ascii.eqb c1 "\" && Ascii.eqb c2 "x" then
        match hexvalue h1, hexvalue h2 with
        | Some a, Some b => String (ascii_of_nat (16 * a + b)) (hex2str s')
        | _, _ => String c1 (hex2str rest)
        end
      else String c1 (hex2str rest)
  | String c s' => String c (hex2str s')
  | EmptyString => EmptyString
  end.

Definition utils : Utils :=
  Build_Utils slugify escape hex2str generate_uid_from_string.

(** The number of decimal digits [s] starts with. *)
Definition isdigit (c : ascii) : bool :=
  let n := nat_of_ascii c in Nat.leb 48 n && Nat.leb n 57.

Fixpoint digits (s : string) : nat :=
  match s with
  | String c s' => if isdigit c then S (digits s') else 0
  | EmptyString => 0
  end.

(** The length of the integer literal [s] starts with, if any. *)
Definition integer (s : string) : option nat :=
  match s with
  | String c s' =>
      if Ascii.eqb c "-"
      then match digits s' with 0 => None | n => Some (S n) end
      else match digits s with 0 => None | n => Some n end
  | EmptyString => None
  end.

(** [s] starts with the closing bracket, respectively with a colon. *)
Definition closes (s : string) : bool :=
  match s with String c _ => Ascii.eqb c "]" | EmptyString => false end.

Definition colon (s : string) : bool :=
  match s with String c _ => Ascii.eqb c ":" | EmptyString => false end.

(** Modelled from the spec: the pattern of [RangeFoldedArgument] is missing;
    the Range syntax is [[start:end]] or [[start:end:step]] with integers. *)
Definition range_regex : Re.pattern := fun s =>
  match s with
  | String c s1 =>
      if Ascii.eqb c "[" then
        match integer s1 with
        | Some a =>
            let s2 := PyStr.drop a s1 in
            if colon s2 then
              match integer (PyStr.drop 1 s2) with
              | Some b =>
                  let s3 := PyStr.drop (S b) s2 in
                  if closes s3 then Some (a + b + 3)
                  else if colon s3 then
                    match integer (PyStr.drop 1 s3) with
                    | Some c =>
                        if closes (PyStr.drop (S c) s3)
                        then Some (a + b + c + 4) else None
                    | None => None
                    end
                  else None
              | None => None
              end
            else None
        | None => None
        end
      else None
  | EmptyString => None
  end.

(** [int(s)] and [str(z)] *)
Definition to_Z (s : string) : exc Z :=
  match NilEmpty.int_of_string s with
  | Some d => Ok (Z.of_int d)
  | None => Raise (ValueError "MalformedFoldArgument")
  end.

Definition of_Z (z : Z) : string := NilEmpty.string_of_int (Z.to_int z).

(** Modelled from the spec: [RangeFoldedArgument.unfold] is missing; a Range
    unfolds to the integers from [start] to [end] inclusive, advancing by
    [step] (1 when absent, possibly negative), and a zero step is malformed. *)
Definition range_values (start stop step : Z) : exc (list string) :=
  if (step =? 0)%Z then Raise (ValueError "MalformedFoldArgument")
  else
    let count := Z.to_nat ((stop - start) / step + 1) in
    Ok (map (fun i => of_Z (start + Z.of_nat i * step)) (seq 0 count)).

Definition range_unfold (captured : string) : exc (list string) :=
  let inner := substring 1 (String.length captured - 2) captured in
  match PyStr.split_char ":" inner with
  | [a; b] =>
      start <- to_Z a ;; stop <- to_Z b ;; range_values start stop 1
  | [a; b; c] =>
      start <- to_Z a ;; stop <- to_Z b ;; step <- to_Z c ;;
      range_values start stop step
  | _ => Raise (ValueError "MalformedFoldArgument")
  end.

(** The number of characters of [s] before the first closing bracket. *)
Fixpoint until_close (s : string) : option nat :=
  match s with
  | EmptyString => None
  | String c s' =>
      if Ascii.eqb c "]" then Some 0
      else match until_close s' with Some n => Some (S n) | None => None end
  end.

(** Modelled from the spec: the pattern of [EnumerationFoldedArgument] is
    missing; the Enumeration syntax is [[item1 item2 ... itemN]], delimited
    by brackets. *)
Definition enumeration_regex : Re.pattern := fun s =>
  match s with
  | String c s' =>
      if Ascii.eqb c "[" then
        match until_close s' with Some n => Some (n + 2) | None => None end
      else None
  | EmptyString => None
  end.

(** Modelled from the spec: [EnumerationFoldedArgument.unfold] is missing; an
    Enumeration unfolds to its items, which white space separates, and one
    without items is an error. *)
Definition enumeration_unfold (captured : string) : exc (list string) :=
  match PyStr.split (substring 1 (String.length captured - 2) captured) with
  | [] => Raise (ValueError "EmptyEnumeration")
  | items => Ok items
  end.

Definition argument : Argument := {|
  RangeFoldedArgument :=
    {| name := "range"; regex := range_regex; unfold := range_unfold |};
  EnumerationFoldedArgument :=
    {| name := "enumeration"; regex := enumeration_regex;
       unfold := enumeration_unfold |}
|}.

End SpecModel.

(** ** Vocabulary of the statements *)

(** The last [k] characters of [s], all of [s] when it is shorter. *)
Definition keep_last (k : nat) (s : string) : string :=
  PyStr.drop (String.length s - k) s.

(** The first [k] characters of [s]. *)
Definition keep_first (k : nat) (s : string) : string := substring 0 k s.

(** The trimming rule of the two name generators: a bound [m] other than
    zero keeps the last [|m|] characters, whatever its sign. *)
Definition trim (m : option Z) (s : string) : string :=
  match m with
  | None => s
  | Some m => if (m =? 0)%Z then s else keep_last (Z.abs_nat m) s
  end.

(** A string of white space only. *)
Fixpoint blank (s : string) : bool :=
  match s with
  | EmptyString => true
  | String c s' => PyStr.isspace c && blank s'
  end.

Definition nl : string := String PyStr.newline EmptyString.

(** [c] does not occur in [s]. *)
Fixpoint free_of (c : ascii) (s : string) : bool :=
  match s with
  | EmptyString => true
  | String d s' => negb (Ascii.eqb d c) && free_of c s'
  end.

(** No character of [u] occurs in [t]. *)
Fixpoint shares_no_char (u t : string) : bool :=
  match u with
  | EmptyString => true
  | String c u' => free_of c t && shares_no_char u' t
  end.

(** [s] starts, respectively ends, with a character other than white space. *)
Definition starts_with_text (s : string) : bool :=
  match s with
  | EmptyString => false
  | String c _ => negb (PyStr.isspace c)
  end.

Fixpoint ends_with_text (s : string) : bool :=
  match s with
  | EmptyString => false
  | String c EmptyString => negb (PyStr.isspace c)
  | String _ s' => ends_with_text s'
  end.

(** The product by recursion on the pools, the first pool outermost. *)
Fixpoint product_rec {A : Type} (pools : list (list A)) : list (list A) :=
  match pools with
  | [] => [[]]
  | pool :: rest => flat_map (fun x => map (cons x) (product_rec rest)) pool
  end.

(** The number of points of the Cartesian product of the segments. *)
Fixpoint product_size (segments : list (list string)) : nat :=
  match segments with
  | [] => 1
  | segment :: rest => List.length segment * product_size rest
  end.

(** A point of the product is a tuple of indices, one into each segment. *)
Definition point_of (segments : list (list string)) (point : list nat) : Prop :=
  Forall2 (fun i segment => i < List.length segment) point segments.

(** The values a point chooses, in segment order. *)
Fixpoint choose (segments : list (list string)) (point : list nat) : list string :=
  match segments, point with
  | segment :: rest, i :: point' => nth i segment "" :: choose rest point'
  | _, _ => []
  end.

(** The position of a point when the last index varies fastest. *)
Fixpoint rank (segments : list (list string)) (point : list nat) : nat :=
  match segments, point with
  | segment :: rest, i :: point' => i * product_size rest + rank rest point'
  | _, _ => 0
  end.

(** The lexicographic order on tuples of indices. *)
Inductive lex_lt : list nat -> list nat -> Prop :=
| lex_lt_here (i j : nat) (a b : list nat) : i < j -> lex_lt (i :: a) (j :: b)
| lex_lt_later (i : nat) (a b : list nat) : lex_lt a b -> lex_lt (i :: a) (i :: b).

(** Where the scan resumes after the match [m]: at its end, or one
    character after its start when it is empty. *)
Definition resume (m : Re.Match) : nat :=
  Nat.max (Re.m_end m) (S (Re.m_start m)).

(** [Scanned alts text from ms]: [ms] are the matches of one left to right
    scan of [text] from the position [from].  Each match starts at the first
    position, not before the point where the scan stands, at which the
    pattern matches, and the scan goes on from where the match lets it
    resume; after the last match the pattern matches nowhere. *)
Inductive Scanned (alts : Re.alternation) (text : string)
  : nat -> list Re.Match -> Prop :=
| scanned_end (from : nat) :
    (forall p, from <= p <= String.length text ->
               Re.match_here alts (PyStr.drop p text) = None) ->
    Scanned alts text from []
| scanned_match (from p n : nat) (gd : list (string * option string))
    (ms : list Re.Match) :
    from <= p <= String.length text ->
    (forall q, from <= q < p -> Re.match_here alts (PyStr.drop q text) = None) ->
    Re.match_here alts (PyStr.drop p text) = Some (n, gd) ->
    Scanned alts text (Nat.max (p + n) (S p)) ms ->
    Scanned alts text from
      ({| Re.m_start := p; Re.m_end := p + n; Re.groupdict := gd |} :: ms).

(** [m] carries a group dictionary of the master pattern. *)
Definition of_master (A : Argument) (m : Re.Match) : Prop :=
  exists s n,
    Re.match_here
      (master_regex [RangeFoldedArgument A; EnumerationFoldedArgument A]) s
    = Some (n, Re.groupdict m).

(** The values the match [m] unfolds to: those of the one argument whose
    group took part in the match. *)
Definition match_unfold (A : Argument) (m : Re.Match) : exc (list string) :=
  match Re.groupdict m with
  | [(_, Some captured); (_, None)] => unfold (RangeFoldedArgument A) captured
  | [(_, None); (_, Some captured)] =>
      unfold (EnumerationFoldedArgument A) captured
  | _ => Raise KeyError
  end.

(** The segments of [text] from [pos] on, given its matches: the plain text
    up to a match and what the match unfolds to, in turn, and the plain text
    after the last match. *)
Fixpoint weave (A : Argument) (text : string) (pos : nat) (ms : list Re.Match)
  : exc (list Segment) :=
  match ms with
  | [] => Ok [Literal (PyStr.drop pos text)]
  | m :: rest =>
      values <- match_unfold A m ;;
      segments <- weave A text (Re.m_end m) rest ;;
      Ok (Literal (PyStr.slice pos (Re.m_start m) text) :: Folded values
            :: segments)
  end.

(** The label of one unfolded argument in [generate_name_from_arguments]. *)
Definition label (U : Utils) (m : option Z) (argvalues : list string) : string :=
  (trim m (slugify U (hd "" argvalues))
   ++ if Nat.ltb 1 (List.length argvalues)
      then "-" ++ trim m (slugify U (last argvalues ""))
      else "")%string.

(** The name the naming example of the specification describes: the chunks
    between underscores, each cut to its last [k] characters, joined again
    by underscores. *)
Definition trim_chunks (k : nat) (command : string) : string :=
  PyStr.join "_" (map (keep_last k) (PyStr.split_char "_" command)).

(** ** [os.path] (POSIX) and the queues of a cluster *)

Module OsPath.

Definition is_sep (c : ascii) : bool := Ascii.eqb c "/".

(** [(p[:i], p[i:])] for [i = p.rfind('/') + 1]: the first component is
    empty exactly when [p] holds no slash. *)
Fixpoint cut (p : string) : string * string :=
  match p with
  | EmptyString => (EmptyString, EmptyString)
  | String c p' =>
      let (head, tail) := cut p' in
      match head with
      | EmptyString =>
          if is_sep c then (String c EmptyString, tail)
          else (EmptyString, String c tail)
      | _ => (String c head, tail)
      end
  end.

(** [head == '/' * len(head)] *)
Fixpoint all_sep (s : string) : bool :=
  match s with
  | EmptyString => true
  | String c s' => is_sep c && all_sep s'
  end.

(** [head.rstrip('/')] *)
Fixpoint rstrip_sep (s : string) : string :=
  match s with
  | EmptyString => EmptyString
  | String c s' =>
      match rstrip_sep s' with
      | EmptyString => if is_sep c then EmptyString else String c EmptyString
      | r => String c r
      end
  end.

(** [os.path.split(p)]: the head loses its trailing slashes unless it is
    made of slashes only. *)
Definition split (p : string) : string * string :=
  let (head, tail) := cut p in
  if negb (String.eqb head "") && negb (all_sep head)
  then (rstrip_sep head, tail)
  else (head, tail).

Definition startswith_sep (s : string) : bool :=
  match s with
  | EmptyString => false
  | String c _ => is_sep c
  end.

Fixpoint endswith_sep (s : string) : bool :=
  match s with
  | EmptyString => false
  | String c EmptyString => is_sep c
  | String _ s' => endswith_sep s'
  end.

(** [os.path.join(a, b)] *)
Definition join (a b : string) : string :=
  if startswith_sep b then b
  else if String.eqb a "" || endswith_sep a then a ++ b
  else a ++ "/" ++ b.

End OsPath.

(** What [get_available_queues] reads of the machine: the path
    [smartdispatch.__file__] of the package, which paths are files, and what
    [utils.load_dict_from_json_file] returns or raises for a path.  [J] is
    the type of what a JSON file holds and [empty_dict] the dictionary
    [{}]. *)
Record Machine (J : Type) : Type := {
  smartdispatch_file : string;
  isfile : string -> bool;
  load_dict_from_json_file : string -> exc J;
  empty_dict : J
}.
Arguments smartdispatch_file {J} _.
Arguments isfile {J} _ _.
Arguments load_dict_from_json_file {J} _ _.
Arguments empty_dict {J} _.

(** The default of [cluster_name] is what [utils.detect_cluster()] returned
    when the function was defined. *)
Record QueueDefaults : Type := {
  cluster_name_default : option string
}.

Definition define_get_available_queues (detected : option string)
  : QueueDefaults :=
  {| cluster_name_default := detected |}.

(** The path of the configuration file of a cluster. *)
Definition config_filepath {J : Type} (M : Machine J) (cluster_name : string)
  : string :=
  let (smartdispatch_dir, _) := OsPath.split (smartdispatch_file M) in
  let config_dir := OsPath.join smartdispatch_dir "config" in
  let config_filename := (cluster_name ++ ".json")%string in
  OsPath.join config_dir config_filename.

(** The argument is [None] when the caller omits it, [Some None] when the
    caller passes [None]. *)
Definition get_available_queues {J : Type} (D : QueueDefaults) (M : Machine J)
  (cluster_name : option (option string)) : exc J :=
  let cluster_name :=
    match cluster_name with
    | Some given => given
    | None => cluster_name_default D
    end in
  match cluster_name with
  | None => Ok (empty_dict M)
  | Some cluster_name =>
      let path := config_filepath M cluster_name in
      if negb (isfile M path) then Ok (empty_dict M)
      else load_dict_from_json_file M path
  end.

(** ** Further vocabulary *)

(** The text a match covers: the group that took part in it. *)
Fixpoint matched_text (gd : list (string * option string)) : string :=
  match gd with
  | [] => EmptyString
  | (_, Some captured) :: _ => captured
  | (_, None) :: rest => matched_text rest
  end.

(** The segments with each Folded put back to the text its match covered:
    the pieces of the escaped text the segments stand for. *)
Fixpoint source_texts (segments : list Segment) (ms : list Re.Match)
  : list string :=
  match segments with
  | [] => []
  | Literal s :: rest => s :: source_texts rest ms
  | Folded _ :: rest =>
      match ms with
      | m :: ms' => matched_text (Re.groupdict m) :: source_texts rest ms'
      | [] => source_texts rest []
      end
  end.

(** The pieces of [text] from [pos] on that the matches delimit. *)
Fixpoint spans (text : string) (pos : nat) (ms : list Re.Match) : list string :=
  match ms with
  | [] => [PyStr.drop pos text]
  | m :: rest =>
      PyStr.slice pos (Re.m_start m) text
        :: PyStr.slice (Re.m_start m) (Re.m_end m) text
        :: spans text (Re.m_end m) rest
  end.

(** The number of values a match unfolds to. *)
Definition values_count (A : Argument) (m : Re.Match) : nat :=
  match match_unfold A m with
  | Ok values => List.length values
  | Raise _ => 0
  end.

(** Two lists of values with the same first and the same last value, and
    both of one value or both of more. *)
Inductive same_ends : list string -> list string -> Prop :=
| same_ends_refl (a : list string) : same_ends a a
| same_ends_between (v w : string) (mid mid' : list string) :
    same_ends (v :: mid ++ [w]) (v :: mid' ++ [w]).

(** The number of newlines of a text. *)
Fixpoint count_newlines (s : string) : nat :=
  match s with
  | EmptyString => 0
  | String c s' =>
      (if Ascii.eqb c PyStr.newline then 1 else 0) + count_newlines s'
  end.

(** The folded argument the unfolder takes at the start of [s], with the
    length of its match: the Range when its pattern matches there, whatever
    the Enumeration pattern does, and the Enumeration only when the Range
    pattern fails. *)
Definition chosen (A : Argument) (s : string) : option (FoldedArgument * nat) :=
  match regex (RangeFoldedArgument A) s with
  | Some n => Some (RangeFoldedArgument A, n)
  | None =>
      match regex (EnumerationFoldedArgument A) s with
      | Some n => Some (EnumerationFoldedArgument A, n)
      | None => None
      end
  end.

(** [Unfolds A text from pos r]: [r] is the result of unfolding [text] in
    one pass from left to right, when the scan stands at [from] and the
    plain text not yet emitted starts at [pos].  If no pattern matches from
    [from] on, the rest of the text is the last Literal.  Otherwise, at the
    first position [p] where a pattern matches, the chosen argument unfolds
    the [n] characters matched: the result is the Literal of the text from
    [pos] to [p], the Folded of the values, and the result for the text after
    the match, the scan resuming at its end (one character further when the
    match is empty); it is the exception raised by [unfold], or by the rest,
    if any. *)
Inductive Unfolds (A : Argument) (text : string)
  : nat -> nat -> exc (list Segment) -> Prop :=
| unfolds_end (from pos : nat) :
    (forall p, from <= p <= String.length text ->
               chosen A (PyStr.drop p text) = None) ->
    Unfolds A text from pos (Ok [Literal (PyStr.drop pos text)])
| unfolds_match (from pos p n : nat) (F : FoldedArgument)
    (r : exc (list Segment)) :
    from <= p <= String.length text ->
    (forall q, from <= q < p -> chosen A (PyStr.drop q text) = None) ->
    chosen A (PyStr.drop p text) = Some (F, n) ->
    Unfolds A text (Nat.max (p + n) (S p)) (p + n) r ->
    Unfolds A text from pos
      (values <- unfold F (substring p n text) ;;
       rest <- r ;;
       Ok (Literal (PyStr.slice pos p text) :: Folded values :: rest)).

(** * Properties *)

(** ** Strings *)

Lemma append_nil_r (s : string) : (s ++ "")%string = s.
Proof. induction s as [|c s IH]; simpl; [reflexivity | now rewrite IH]. Qed.

Lemma append_assoc (a b c : string) :
  ((a ++ b) ++ c)%string = (a ++ (b ++ c))%string.
Proof. induction a as [|x a IH]; simpl; [reflexivity | now rewrite IH]. Qed.

Lemma length_append (a b : string) :
  String.length (a ++ b) = String.length a + String.length b.
Proof. induction a as [|x a IH]; simpl; [reflexivity | now rewrite IH]. Qed.

Lemma drop_0 (s : string) : PyStr.drop 0 s = s.
Proof. destruct s; reflexivity. Qed.

Lemma drop_all (n : nat) (s : string) :
  String.length s <= n -> PyStr.drop n s = "".
Proof.
  revert s; induction n as [|n IH]; intros [|c s] H; simpl in *;
    try reflexivity; try lia.
  apply IH; lia.
Qed.

Lemma drop_split (n : nat) (s : string) :
  n <= String.length s ->
  exists dropped,
    s = (dropped ++ PyStr.drop n s)%string /\ String.length dropped = n.
Proof.
  revert s; induction n as [|n IH]; intros s H.
  - exists ""; rewrite drop_0; auto.
  - destruct s as [|c s]; simpl in H; [lia|].
    destruct (IH s) as (d & Hd & Hl); [lia|].
    exists (String c d); simpl; split; [now rewrite <- Hd | now rewrite Hl].
Qed.

Lemma keep_last_suffix (k : nat) (s : string) :
  exists dropped,
    s = (dropped ++ keep_last k s)%string /\
    String.length (keep_last k s) = Nat.min k (String.length s).
Proof.
  unfold keep_last.
  destruct (drop_split (String.length s - k) s) as (d & Hd & Hl); [lia|].
  exists d; split; [exact Hd|].
  apply (f_equal String.length) in Hd; rewrite length_append in Hd; lia.
Qed.

(** ** The trimming rule *)

Lemma slice_from_trim (m : option Z) (s : string) :
  PyStr.slice_from (normalize_max_length m) s = trim m s.
Proof.
  destruct m as [m|]; [|reflexivity].
  unfold normalize_max_length, PyStr.slice_from, trim, keep_last.
  destruct (Z.eqb_spec m 0) as [Hm|Hm];
    destruct (Z.ltb_spec (Z.min (- m) m) 0) as [H|H]; try lia.
  - replace (Z.to_nat _) with 0 by lia. apply drop_0.
  - f_equal. lia.
Qed.

(** ** Name generation *)

Lemma final_snoc {A : Type} (l : list A) (x : A) : final (l ++ [x]) = Ok x.
Proof. unfold final. now rewrite rev_unit. Qed.

Lemma name_step_label (U : Utils) (m : option Z) (name argvalues : list string) :
  argvalues <> [] ->
  name_step U (normalize_max_length m) name argvalues
  = Ok (name ++ [label U m argvalues]).
Proof.
  intros Hne. unfold name_step, label. rewrite length_map.
  destruct argvalues as [|v vs]; [congruence|]. cbn [map first bind hd].
  rewrite slice_from_trim.
  destruct (Nat.ltb 1 (List.length (v :: vs))) eqn:Hlen.
  - destruct (exists_last Hne) as (front & y & Hy).
    replace (slugify U v :: map (slugify U) vs) with (map (slugify U) (v :: vs))
      by reflexivity.
    rewrite Hy, map_app. cbn [map]. rewrite final_snoc. cbn [bind].
    unfold extend_last. rewrite final_snoc. cbn [bind].
    rewrite removelast_last, last_last, slice_from_trim. reflexivity.
  - now rewrite append_nil_r.
Qed.

Lemma name_loop_labels (U : Utils) (m : option Z) (arguments : list (list string)) :
  Forall (fun argvalues => argvalues <> []) arguments ->
  forall name,
    name_loop U (normalize_max_length m) arguments name
    = Ok (name ++ map (label U m) arguments).
Proof.
  induction 1 as [|argvalues rest Hne _ IH]; intros name; cbn [name_loop map].
  - now rewrite app_nil_r.
  - rewrite name_step_label by assumption. cbn [bind].
    rewrite IH, <- app_assoc. reflexivity.
Qed.

Lemma generate_name_from_command_trim (U : Utils) (command : string)
  (max_length_arg max_length : option Z) :
  generate_name_from_command U command max_length_arg max_length
  = trim max_length
      (PyStr.join "_"
         (map (fun argvalue => trim max_length_arg (slugify U argvalue))
              (PyStr.split command))).
Proof.
  unfold generate_name_from_command. rewrite slice_from_trim.
  do 2 f_equal. apply map_ext. intros a. apply slice_from_trim.
Qed.

Lemma split_blank (s : string) : blank s = true -> PyStr.split s = [].
Proof.
  induction s as [|c s IH]; simpl; [reflexivity|].
  intros H. apply andb_prop in H as [Hc Hs]. rewrite Hc. auto.
Qed.

(** C6, as the code has it.  Both name generators cut a token or a name with
    [s[m:]] after [m = min(-m, m)]: for a bound [m] other than zero this keeps
    the trailing [|m|] characters of the string (all of it when it is
    shorter), for a negative bound as for a positive one; an absent bound
    leaves the string whole.  [generate_name_from_command] applies this rule
    with [max_length_arg] to each slugified token and with [max_length] to
    the joined name; [generate_name_from_arguments] applies it with
    [max_length_arg] to the first and last value of each argument and with
    [max_length] to the joined name, before the prefix. *)
Theorem trim_keeps_trailing_characters (U : Utils) :
  (forall (tok : string) (m : Z), m <> 0%Z ->
     PyStr.slice_from (normalize_max_length (Some m)) tok
     = keep_last (Z.abs_nat m) tok
     /\ exists dropped,
          tok = (dropped ++ keep_last (Z.abs_nat m) tok)%string
          /\ String.length (keep_last (Z.abs_nat m) tok)
             = Nat.min (Z.abs_nat m) (String.length tok))
  /\ (forall tok : string,
        PyStr.slice_from (normalize_max_length None) tok = tok)
  /\ (forall (command : string) (max_length_arg max_length : option Z),
        generate_name_from_command U command max_length_arg max_length
        = trim max_length
            (PyStr.join "_"
               (map (fun argvalue => trim max_length_arg (slugify U argvalue))
                    (PyStr.split command))))
  /\ (forall (D : Defaults) (now : datetime) (arguments : list (list string))
             (max_length_arg max_length : option Z) (prefix : string),
        Forall (fun argvalues => argvalues <> []) arguments ->
        generate_name_from_arguments D now U arguments max_length_arg
          max_length (Some prefix)
        = Ok (prefix
              ++ trim max_length
                   (PyStr.join "_" (map (label U max_length_arg) arguments)))%string).
Proof.
  split; [|split; [|split]].
  - intros tok m Hm. split.
    + rewrite slice_from_trim. unfold trim.
      destruct (Z.eqb_spec m 0); [contradiction | reflexivity].
    + apply keep_last_suffix.
  - reflexivity.
  - apply generate_name_from_command_trim.
  - intros D now arguments mla ml prefix Hne.
    unfold generate_name_from_arguments.
    rewrite name_loop_labels by assumption. cbn [bind app].
    now rewrite slice_from_trim.
Qed.

Lemma trim_keeps_trailing_characters_witness :
  PyStr.slice_from (normalize_max_length (Some (-2)%Z)) "abcdef" = "ef"
  /\ generate_name_from_arguments
       (define_generate_name_from_arguments (Build_datetime 2020 1 2 3 14 5))
       (Build_datetime 2021 6 7 8 9 10) SpecModel.utils
       [["run"]; ["alpha"; "beta"; "gamma"]] (Some (-3)%Z) (Some 6%Z)
       (Some "job_")
     = Ok "job_ha-mma".
Proof.
  destruct (trim_keeps_trailing_characters SpecModel.utils)
    as (Htok & _ & _ & Hargs).
  split.
  - destruct (Htok "abcdef" (-2)%Z) as [H _]; [lia | exact H].
  - rewrite (Hargs _ _ [["run"]; ["alpha"; "beta"; "gamma"]]).
    + reflexivity.
    + repeat constructor; discriminate.
Defined.

(** C6, as the specification words it, fails: for the negative bound [-2]
    the rule keeps the two trailing characters of ["abcdef"], not the two
    leading ones. *)
Lemma negative_bound_keeps_tail_not_head :
  PyStr.slice_from (normalize_max_length (Some (-2)%Z)) "abcdef"
  <> keep_first 2 "abcdef".
Proof. vm_compute. discriminate. Qed.

(** C8, as the code has it.  Neither generator raises on an empty input: a
    command without tokens (empty or all white space) gets the empty name,
    and an empty list of arguments gets the prefix alone, the given one or
    the default. *)
Theorem empty_input_gets_a_name (U : Utils) :
  (forall (command : string) (max_length_arg max_length : option Z),
     blank command = true ->
     generate_name_from_command U command max_length_arg max_length = "")
  /\ (forall (D : Defaults) (now : datetime)
             (max_length_arg max_length : option Z) (prefix : option string),
        generate_name_from_arguments D now U [] max_length_arg max_length prefix
        = Ok (match prefix with Some p => p | None => prefix_default D end)).
Proof.
  split.
  - intros command mla ml Hblank.
    rewrite generate_name_from_command_trim, split_blank by assumption.
    cbn [map PyStr.join String.concat].
    destruct ml as [m|]; [|reflexivity]. unfold trim.
    destruct (m =? 0)%Z; reflexivity.
  - intros D now mla ml prefix. unfold generate_name_from_arguments.
    cbn [name_loop bind PyStr.join String.concat].
    rewrite slice_from_trim.
    replace (trim ml "") with "".
    + now rewrite append_nil_r.
    + destruct ml as [m|]; [|reflexivity]. unfold trim.
      destruct (m =? 0)%Z; reflexivity.
Qed.

Lemma empty_input_gets_a_name_witness :
  generate_name_from_command SpecModel.utils "  " (Some 3%Z) None = "".
Proof.
  destruct (empty_input_gets_a_name SpecModel.utils) as [H _].
  apply H. reflexivity.
Defined.

(** C8, as the specification words it, fails: on the empty command and on
    the empty list of arguments the generators return a name. *)
Lemma empty_input_does_not_fail :
  generate_name_from_command SpecModel.utils "" None None = ""
  /\ generate_name_from_arguments
       (define_generate_name_from_arguments (Build_datetime 2020 1 2 3 14 5))
       (Build_datetime 2020 1 2 3 14 5) SpecModel.utils [] None None
       (Some "job_")
     = Ok "job_".
Proof. split; reflexivity. Qed.

(** C10, as the code has it.  ["run_alpha_beta"] holds no white space, so it
    is one token: with [max_length_arg = 3] the name is the last three
    characters of the slug of the whole command.  Tokens are what white
    space separates: each of them is slugified and cut to its last three
    characters, and they are joined by underscores. *)
Theorem name_of_run_alpha_beta (U : Utils) :
  generate_name_from_command U "run_alpha_beta" (Some 3%Z) None
  = keep_last 3 (slugify U "run_alpha_beta")
  /\ String.length (generate_name_from_command U "run_alpha_beta" (Some 3%Z) None)
     <= 3
  /\ generate_name_from_command U "run alpha beta" (Some 3%Z) None
     = (keep_last 3 (slugify U "run") ++ "_"
        ++ keep_last 3 (slugify U "alpha") ++ "_"
        ++ keep_last 3 (slugify U "beta"))%string.
Proof.
  assert (H : generate_name_from_command U "run_alpha_beta" (Some 3%Z) None
              = keep_last 3 (slugify U "run_alpha_beta")).
  { rewrite generate_name_from_command_trim. reflexivity. }
  split; [exact H | split].
  - rewrite H.
    destruct (keep_last_suffix 3 (slugify U "run_alpha_beta")) as (_ & _ & Hl).
    rewrite Hl. lia.
  - rewrite generate_name_from_command_trim. reflexivity.
Qed.

(** C10, as the specification words it, fails: the name of
    ["run_alpha_beta"] is not made of its underscore-delimited chunks, each
    cut to three characters. *)
Lemma name_of_run_alpha_beta_is_not_chunked :
  generate_name_from_command SpecModel.utils "run_alpha_beta" (Some 3%Z) None
  <> trim_chunks 3 "run_alpha_beta".
Proof. vm_compute. discriminate. Qed.

(** ** Commands read from a file *)

Section CommandsFromFile.

Lemma rstrip_blank (s : string) : blank s = true -> PyStr.rstrip s = "".
Proof.
  induction s as [|c s IH]; simpl; [reflexivity|].
  intros H. apply andb_prop in H as [Hc Hs]. now rewrite IH, Hc.
Qed.

Lemma rstrip_app_blank (x post : string) :
  blank post = true -> PyStr.rstrip (x ++ post) = PyStr.rstrip x.
Proof.
  intros Hb. induction x as [|c x IH]; simpl.
  - now apply rstrip_blank.
  - now rewrite IH.
Qed.

Lemma ends_with_text_rstrip (s : string) :
  ends_with_text s = true -> PyStr.rstrip s = s.
Proof.
  induction s as [|c s IH]; [discriminate|].
  destruct s as [|d s].
  - simpl. intros H. now rewrite (proj1 (negb_true_iff _) H).
  - intros H. change (ends_with_text (String d s) = true) in H.
    change (PyStr.rstrip (String c (String d s)))
      with (match PyStr.rstrip (String d s) with
            | EmptyString =>
                if PyStr.isspace c then EmptyString else String c EmptyString
            | r => String c r
            end).
    now rewrite (IH H).
Qed.

Lemma ends_with_text_app (a b : string) :
  ends_with_text b = true -> ends_with_text (a ++ b) = true.
Proof.
  intros Hb. induction a as [|c a IH]; [exact Hb|].
  simpl. destruct (a ++ b)%string; [discriminate IH | exact IH].
Qed.

Lemma rstrip_app_text (x y : string) :
  ends_with_text y = true -> PyStr.rstrip (x ++ y) = (x ++ y)%string.
Proof.
  intros Hy. apply ends_with_text_rstrip. now apply ends_with_text_app.
Qed.

Lemma lstrip_app_blank (pre b : string) :
  blank pre = true -> PyStr.lstrip (pre ++ b) = PyStr.lstrip b.
Proof.
  induction pre as [|c pre IH]; simpl; [reflexivity|].
  intros H. apply andb_prop in H as [Hc Hs]. rewrite Hc. auto.
Qed.

Lemma starts_with_text_lstrip (s : string) :
  starts_with_text s = true -> PyStr.lstrip s = s.
Proof.
  destruct s as [|c s]; simpl; [discriminate|].
  intros H. now rewrite (proj1 (negb_true_iff _) H).
Qed.

Lemma starts_with_text_app (a b : string) :
  starts_with_text a = true -> starts_with_text (a ++ b) = true.
Proof. destruct a; simpl; [discriminate | auto]. Qed.

Lemma strip_padded (pre body post : string) :
  blank pre = true -> blank post = true ->
  starts_with_text body = true -> ends_with_text body = true ->
  PyStr.strip (pre ++ body ++ post) = body.
Proof.
  intros Hpre Hpost Hs He. unfold PyStr.strip.
  rewrite <- append_assoc, rstrip_app_blank, rstrip_app_text by assumption.
  rewrite lstrip_app_blank by assumption.
  now apply starts_with_text_lstrip.
Qed.

Lemma join_cons (sep l : string) (rest : list string) :
  rest <> [] ->
  PyStr.join sep (l :: rest) = (l ++ sep ++ PyStr.join sep rest)%string.
Proof. destruct rest; [congruence | reflexivity]. Qed.

Lemma join_starts (lines : list string) :
  starts_with_text (hd "" lines) = true ->
  starts_with_text (PyStr.join nl lines) = true.
Proof.
  destruct lines as [|l [|l' rest]]; simpl; auto.
  intros H. now apply starts_with_text_app.
Qed.

Lemma join_ends (lines : list string) :
  ends_with_text (last lines "") = true ->
  ends_with_text (PyStr.join nl lines) = true.
Proof.
  induction lines as [|l rest IH]; [auto|].
  destruct rest as [|l' rest]; [auto|].
  intros H. rewrite join_cons by discriminate.
  rewrite <- append_assoc. apply ends_with_text_app, IH. exact H.
Qed.

Lemma split_char_free (sep : ascii) (l : string) :
  free_of sep l = true -> PyStr.split_char sep l = [l].
Proof.
  induction l as [|c l IH]; simpl; [reflexivity|].
  intros H. apply andb_prop in H as [Hc Hl].
  rewrite (proj1 (negb_true_iff _) Hc), (IH Hl). reflexivity.
Qed.

Lemma split_char_line (sep : ascii) (l rest : string) :
  free_of sep l = true ->
  PyStr.split_char sep (l ++ String sep rest)
  = l :: PyStr.split_char sep rest.
Proof.
  induction l as [|c l IH]; simpl.
  - now rewrite Ascii.eqb_refl.
  - intros H. apply andb_prop in H as [Hc Hl].
    rewrite (proj1 (negb_true_iff _) Hc), (IH Hl). reflexivity.
Qed.

Lemma split_char_join (lines : list string) :
  lines <> [] ->
  Forall (fun l => free_of PyStr.newline l = true) lines ->
  PyStr.split_char PyStr.newline (PyStr.join nl lines) = lines.
Proof.
  intros Hne Hfree. induction Hfree as [|l rest Hl Hrest IH]; [congruence|].
  destruct rest as [|l' rest].
  - now apply split_char_free.
  - rewrite join_cons by discriminate.
    change (nl ++ PyStr.join nl (l' :: rest))%string
      with (String PyStr.newline (PyStr.join nl (l' :: rest))).
    rewrite split_char_line by assumption.
    f_equal. apply IH. discriminate.
Qed.

End CommandsFromFile.

(** C9, as the code has it.  [get_commands_from_file] strips the white space
    around the whole text and cuts what remains at every newline: when the
    text is a non-empty sequence of lines joined by newlines, possibly padded
    by white space before and after (a last newline, blank trailing lines),
    where the first line starts and the last line ends with a character
    other than white space, the commands are exactly these lines, each as it
    is written: inner lines keep their own leading and trailing white space
    and may be empty.  A text of white space only gives one empty command.
    No pattern is looked for in the lines. *)
Theorem commands_are_lines_of_stripped_text :
  (forall (pre post : string) (lines : list string),
     blank pre = true -> blank post = true ->
     lines <> [] ->
     Forall (fun l => free_of PyStr.newline l = true) lines ->
     starts_with_text (hd "" lines) = true ->
     ends_with_text (last lines "") = true ->
     get_commands_from_file (pre ++ PyStr.join nl lines ++ post) = lines)
  /\ (forall text : string,
        blank text = true -> get_commands_from_file text = [""]).
Proof.
  split.
  - intros pre post lines Hpre Hpost Hne Hfree Hs He.
    unfold get_commands_from_file.
    rewrite strip_padded; auto using join_starts, join_ends.
    now apply split_char_join.
  - intros text Hb. unfold get_commands_from_file, PyStr.strip.
    now rewrite rstrip_blank.
Qed.

Lemma commands_are_lines_of_stripped_text_witness :
  get_commands_from_file
    ((nl ++ " ") ++ PyStr.join nl ["a "; ""; " [1:3] b"] ++ (nl ++ " " ++ nl))
  = ["a "; ""; " [1:3] b"].
Proof.
  destruct commands_are_lines_of_stripped_text as [H _].
  apply H; try reflexivity; [discriminate | repeat constructor].
Defined.

(** C9, as the specification words it, fails: of the three commands read
    from the text of lines ["a "], [""] and [" b"], one is empty and two
    are not trimmed. *)
Lemma commands_not_trimmed_one_by_one :
  ~ Forall (fun command => command <> "" /\ PyStr.strip command = command)
      (get_commands_from_file ("a " ++ nl ++ nl ++ " b" ++ nl)).
Proof.
  intros H. vm_compute in H. inversion H as [|? ? [_ Habs] _]. discriminate Habs.
Qed.

(** ** Replacing the tag *)

Section ReplaceTag.

Lemma prefix_nil (s : string) : prefix "" s = true.
Proof. destruct s; reflexivity. Qed.

Lemma prefix_cons (a c : ascii) (w s : string) :
  prefix (String a w) (String c s) = true <-> a = c /\ prefix w s = true.
Proof.
  simpl. destruct (ascii_dec a c) as [->|Hne]; split; try tauto.
  discriminate.
Qed.

Lemma prefix_cons_eqb (a c : ascii) (w s : string) :
  prefix (String a w) (String c s) = Ascii.eqb a c && prefix w s.
Proof.
  simpl. destruct (ascii_dec a c) as [->|Hne].
  - now rewrite Ascii.eqb_refl.
  - apply Ascii.eqb_neq in Hne. now rewrite Hne.
Qed.

Lemma prefix_append (a r : string) : prefix a (a ++ r) = true.
Proof.
  induction a as [|x a IH]; [apply prefix_nil|].
  cbn [append]. now rewrite prefix_cons_eqb, Ascii.eqb_refl.
Qed.

Lemma replace_absent (old new s : string) :
  PyStr.contains old s = false -> PyStr.replace_from old new 0 s = s.
Proof.
  induction s as [|c s IH]; [reflexivity|].
  intros H. cbn [PyStr.contains] in H. apply orb_false_elim in H as [Hp Hc].
  cbn [PyStr.replace_from]. rewrite Hp, (IH Hc). reflexivity.
Qed.

(** An occurrence of the tag cannot start inside a piece without the tag
    and run over into a tag that follows it: the tag's first character
    occurs nowhere else in the tag. *)
Lemma no_straddling_occurrence (c : ascii) (p rest : string) :
  prefix UID_TAG (String c p) = false ->
  prefix UID_TAG (String c (p ++ UID_TAG ++ rest)) = false.
Proof.
  unfold UID_TAG.
  destruct p as [|c2 [|c3 [|c4 [|c5 p]]]]; cbn [append];
    rewrite !prefix_cons_eqb, ?prefix_nil;
    repeat match goal with
           | |- context [Ascii.eqb ?a ?b] =>
               destruct (Ascii.eqb_spec a b); subst; cbn [andb]
           end;
    try reflexivity; try discriminate; auto.
Qed.

Lemma replace_piece (u p rest : string) :
  PyStr.contains UID_TAG p = false ->
  PyStr.replace_from UID_TAG u 0 (p ++ UID_TAG ++ rest)
  = (p ++ u ++ PyStr.replace_from UID_TAG u 0 rest)%string.
Proof.
  induction p as [|c p IH]; intros H.
  - change ("" ++ UID_TAG ++ rest)%string with (String "{" ("UID}" ++ rest)).
    cbn [PyStr.replace_from].
    replace (prefix UID_TAG (String "{" ("UID}" ++ rest))) with true
      by (symmetry; apply (prefix_append UID_TAG rest)).
    reflexivity.
  - cbn [PyStr.contains] in H. apply orb_false_elim in H as [Hp Hc].
    change (String c p ++ UID_TAG ++ rest)%string
      with (String c (p ++ UID_TAG ++ rest)).
    cbn [PyStr.replace_from].
    rewrite (no_straddling_occurrence _ _ _ Hp), (IH Hc). reflexivity.
Qed.

Lemma replace_join (u : string) (parts : list string) :
  Forall (fun p => PyStr.contains UID_TAG p = false) parts ->
  PyStr.replace UID_TAG u (PyStr.join UID_TAG parts) = PyStr.join u parts.
Proof.
  unfold PyStr.replace.
  induction 1 as [|p rest Hp Hrest IH]; [reflexivity|].
  destruct rest as [|p' rest].
  - now apply replace_absent.
  - rewrite !join_cons by discriminate.
    rewrite replace_piece by assumption. now rewrite IH.
Qed.

Lemma prefix_split (a s : string) :
  prefix a s = true -> exists r, s = (a ++ r)%string.
Proof.
  revert s; induction a as [|x a IH]; intros s H; [now exists s|].
  destruct s as [|c s]; [discriminate H|].
  apply prefix_cons in H as [-> H]. destruct (IH _ H) as [r ->].
  now exists r.
Qed.

Lemma prefix_grows (a x y : string) :
  prefix a x = true -> prefix a (x ++ y) = true.
Proof.
  intros H. destruct (prefix_split _ _ H) as [r ->].
  rewrite append_assoc. apply prefix_append.
Qed.

(** A text that holds the tag is a piece without the tag, the tag, and the
    rest. *)
Lemma first_occurrence (s : string) :
  PyStr.contains UID_TAG s = true ->
  exists p rest,
    s = (p ++ UID_TAG ++ rest)%string /\ PyStr.contains UID_TAG p = false.
Proof.
  induction s as [|c s IH]; intros H; [discriminate H|].
  cbn [PyStr.contains] in H.
  destruct (prefix UID_TAG (String c s)) eqn:Hp.
  - destruct (prefix_split _ _ Hp) as [rest ->]. now exists "", rest.
  - destruct (IH H) as (p & rest & -> & Hfree).
    exists (String c p), rest. split; [reflexivity|].
    cbn [PyStr.contains]. rewrite Hfree, orb_false_r.
    destruct (prefix UID_TAG (String c p)) eqn:Hq; [|reflexivity].
    apply (prefix_grows _ _ (UID_TAG ++ rest)) in Hq.
    cbn [append] in Hq. congruence.
Qed.

(** Every text is made of pieces without the tag, joined by the tag. *)
Lemma pieces (n : nat) :
  forall s, String.length s <= n ->
  exists parts,
    parts <> []
    /\ Forall (fun p => PyStr.contains UID_TAG p = false) parts
    /\ s = PyStr.join UID_TAG parts.
Proof.
  induction n as [|n IH]; intros s Hlen.
  - destruct s; [|cbn in Hlen; lia].
    exists [""]. repeat split; [discriminate | repeat constructor].
  - destruct (PyStr.contains UID_TAG s) eqn:Hc.
    + destruct (first_occurrence _ Hc) as (p & rest & -> & Hfree).
      destruct (IH rest) as (parts & Hne & Hparts & ->).
      { rewrite !length_append in Hlen. cbn in Hlen. lia. }
      exists (p :: parts). split; [discriminate | split].
      * now constructor.
      * now rewrite join_cons.
    + exists [s]. repeat split; [discriminate | now repeat constructor].
Qed.

Variables (h : ascii) (u' : string).
Let u : string := String h u'.

Lemma prefix_replace_reflects (tag w : string) :
  free_of h w = true ->
  forall s,
    prefix w (PyStr.replace_from tag u 0 s) = true -> prefix w s = true.
Proof.
  induction w as [|a w IH]; intros Hfree s; [intros _; apply prefix_nil|].
  cbn [free_of] in Hfree. apply andb_prop in Hfree as [Ha Hw].
  apply negb_true_iff, Ascii.eqb_neq in Ha.
  destruct s as [|c s]; [intros H; exact H|].
  cbn [PyStr.replace_from].
  destruct (prefix tag (String c s)).
  - unfold u. cbn [append]. intros H. apply prefix_cons in H as [E _].
    contradiction.
  - intros H. apply prefix_cons in H as [E H]. apply prefix_cons.
    split; [exact E | now apply IH].
Qed.

Hypothesis u_apart : shares_no_char u UID_TAG = true.

Lemma h_not_in_tag : free_of h UID_TAG = true.
Proof.
  unfold u in u_apart. cbn [shares_no_char] in u_apart.
  now apply andb_prop in u_apart as [H _].
Qed.

Lemma contains_after_apart (v r : string) :
  shares_no_char v UID_TAG = true ->
  PyStr.contains UID_TAG r = false -> PyStr.contains UID_TAG (v ++ r) = false.
Proof.
  intros Hv Hr. induction v as [|c v IH]; [exact Hr|].
  cbn [shares_no_char] in Hv. apply andb_prop in Hv as [Hc Hv].
  change (String c v ++ r)%string with (String c (v ++ r)).
  cbn [PyStr.contains]. rewrite (IH Hv), orb_false_r.
  unfold UID_TAG in *. rewrite prefix_cons_eqb.
  destruct (Ascii.eqb_spec "{" c) as [<-|_]; [discriminate Hc | reflexivity].
Qed.

Lemma no_tag_after_replace (s : string) :
  forall skip,
    PyStr.contains UID_TAG (PyStr.replace_from UID_TAG u skip s) = false.
Proof.
  induction s as [|c s IH]; intros skip; [reflexivity|].
  cbn [PyStr.replace_from]. destruct skip as [|k]; [|apply IH].
  destruct (prefix UID_TAG (String c s)) eqn:Hp.
  - apply contains_after_apart; [exact u_apart | apply IH].
  - cbn [PyStr.contains]. rewrite IH, orb_false_r.
    destruct (prefix UID_TAG (String c (PyStr.replace_from UID_TAG u 0 s)))
      eqn:Hq; [|reflexivity].
    assert (H : prefix UID_TAG (PyStr.replace_from UID_TAG u 0 (String c s))
                = true).
    { cbn [PyStr.replace_from]. now rewrite Hp. }
    apply prefix_replace_reflects in H; [congruence | exact h_not_in_tag].
Qed.

End ReplaceTag.

Lemma replace_removes_tag (v s : string) :
  v <> "" -> shares_no_char v UID_TAG = true ->
  PyStr.contains UID_TAG (PyStr.replace UID_TAG v s) = false.
Proof.
  intros Hne Hv. destruct v as [|h v']; [congruence|].
  now apply no_tag_after_replace.
Qed.

Lemma hexdigit_not_in_tag (n : N) : free_of (SpecModel.hexdigit n) UID_TAG = true.
Proof.
  destruct n as [|p]; [reflexivity|].
  do 4 (try (destruct p as [p|p|]; try reflexivity)).
Qed.

Lemma model_uid_apart (command : string) :
  SpecModel.generate_uid_from_string command <> ""
  /\ shares_no_char (SpecModel.generate_uid_from_string command) UID_TAG = true.
Proof.
  split; [discriminate|].
  unfold SpecModel.generate_uid_from_string. cbn [shares_no_char].
  now rewrite !hexdigit_not_in_tag.
Qed.

(** C4.  [replace_uid_tag] returns a list of the same length, whose item at
    each index is the command at that index with the tag replaced by the UID
    of that command as it was given, tag included: a command without the tag
    is returned unchanged, and in a command made of pieces without the tag,
    joined by the tag (as every command is), every tag is replaced, that is,
    the result is the same pieces joined by the UID. *)
Theorem replace_uid_tag_each_command (U : Utils) (commands : list string) :
  List.length (replace_uid_tag U commands) = List.length commands
  /\ forall (i : nat) (command : string),
       nth_error commands i = Some command ->
       nth_error (replace_uid_tag U commands) i
       = Some (PyStr.replace UID_TAG (generate_uid_from_string U command) command)
       /\ (PyStr.contains UID_TAG command = false ->
           nth_error (replace_uid_tag U commands) i = Some command)
       /\ (forall parts : list string,
             Forall (fun p => PyStr.contains UID_TAG p = false) parts ->
             command = PyStr.join UID_TAG parts ->
             nth_error (replace_uid_tag U commands) i
             = Some (PyStr.join (generate_uid_from_string U command) parts))
       /\ (exists parts : list string,
             Forall (fun p => PyStr.contains UID_TAG p = false) parts
             /\ command = PyStr.join UID_TAG parts).
Proof.
  split; [apply length_map|].
  intros i command Hi.
  assert (H : nth_error (replace_uid_tag U commands) i
              = Some (PyStr.replace UID_TAG (generate_uid_from_string U command)
                        command)).
  { unfold replace_uid_tag. rewrite nth_error_map, Hi. reflexivity. }
  split; [exact H | split; [|split]].
  - intros Habsent. rewrite H. f_equal. now apply replace_absent.
  - intros parts Hparts Hc. rewrite H. f_equal.
    rewrite Hc at 2. now apply replace_join.
  - destruct (pieces _ command (le_n _)) as (parts & _ & Hparts & Hc).
    now exists parts.
Qed.

Lemma replace_uid_tag_each_command_witness :
  nth_error
    (replace_uid_tag SpecModel.utils ["abc"; "job_{UID} --x=1 {{UID}"; "{UID"]) 1
  = Some (PyStr.join
            (SpecModel.generate_uid_from_string "job_{UID} --x=1 {{UID}")
            ["job_"; " --x=1 {"; ""]).
Proof.
  destruct (replace_uid_tag_each_command SpecModel.utils
              ["abc"; "job_{UID} --x=1 {{UID}"; "{UID"]) as [_ H].
  destruct (H 1 "job_{UID} --x=1 {{UID}" eq_refl) as (_ & _ & Hparts & _).
  apply Hparts; [repeat constructor | reflexivity].
Defined.



(** That the UID does not hold the tag would not be enough for C5: with the
    UID ["UID"] one pass turns ["{{UID}}"] into the tag itself. *)
Remark uid_without_tag_is_not_enough :
  let U := Build_Utils (fun s => s) (fun s => s) (fun s => s) (fun _ => "UID") in
  PyStr.contains UID_TAG (generate_uid_from_string U "{{UID}}") = false
  /\ replace_uid_tag U ["{{UID}}"] = ["{UID}"]
  /\ replace_uid_tag U (replace_uid_tag U ["{{UID}}"]) = ["UID"].
Proof. repeat split. Qed.

(** ** The Cartesian product *)

Section Product.

Context {A : Type}.

Lemma extend_one (pre : list A) (pool : list A) (tails : list (list A)) :
  flat_map (fun x => map (app x) tails) (map (fun y => pre ++ [y]) pool)
  = map (app pre) (flat_map (fun y => map (cons y) tails) pool).
Proof.
  induction pool as [|y pool IH]; [reflexivity|].
  cbn [map flat_map]. rewrite IH, map_app, map_map. f_equal.
  apply map_ext. intros t. now rewrite <- app_assoc.
Qed.

Lemma product_fold (pools : list (list A)) :
  forall result,
    fold_left
      (fun result pool =>
         flat_map (fun x => map (fun y => x ++ [y]) pool) result)
      pools result
    = flat_map (fun x => map (app x) (product_rec pools)) result.
Proof.
  induction pools as [|pool rest IH]; intros result; cbn [fold_left product_rec].
  - induction result as [|x result IHr]; [reflexivity|].
    cbn [flat_map map app]. rewrite app_nil_r. f_equal. exact IHr.
  - rewrite IH. induction result as [|x result IHr]; [reflexivity|].
    cbn [flat_map]. rewrite flat_map_app, IHr. f_equal. apply extend_one.
Qed.

Lemma product_is_product_rec (pools : list (list A)) :
  Itertools.product pools = product_rec pools.
Proof.
  unfold Itertools.product. rewrite product_fold. cbn [flat_map].
  rewrite app_nil_r. rewrite <- (map_id (product_rec pools)) at 2.
  apply map_ext. reflexivity.
Qed.

Lemma length_stack (pool : list A) (tails : list (list A)) :
  List.length (flat_map (fun x => map (cons x) tails) pool)
  = List.length pool * List.length tails.
Proof.
  induction pool as [|x pool IH]; [reflexivity|].
  cbn [flat_map]. rewrite length_app, length_map, IH. reflexivity.
Qed.

Lemma nth_error_stack (d : A) (tails : list (list A)) (k : nat) (t : list A) :
  nth_error tails k = Some t ->
  forall (pool : list A) (i : nat),
    i < List.length pool ->
    nth_error (flat_map (fun x => map (cons x) tails) pool)
      (i * List.length tails + k)
    = Some (nth i pool d :: t).
Proof.
  intros Hk. assert (Hlt : k < List.length tails).
  { apply nth_error_Some. congruence. }
  induction pool as [|x pool IH]; intros i Hi; [cbn in Hi; lia|].
  cbn [flat_map]. destruct i as [|i].
  - rewrite nth_error_app1 by (rewrite length_map; lia).
    cbn [Nat.mul Nat.add nth]. now rewrite nth_error_map, Hk.
  - rewrite nth_error_app2 by (rewrite length_map; lia).
    rewrite length_map.
    replace (S i * List.length tails + k - List.length tails)
      with (i * List.length tails + k) by lia.
    cbn [nth]. apply IH. cbn in Hi. lia.
Qed.

End Product.

Section Rank.

Lemma length_product_rec (segments : list (list string)) :
  List.length (product_rec segments) = product_size segments.
Proof.
  induction segments as [|segment rest IH]; [reflexivity|].
  cbn [product_rec product_size]. now rewrite length_stack, IH.
Qed.

Lemma rank_bound (segments : list (list string)) (point : list nat) :
  point_of segments point -> rank segments point < product_size segments.
Proof.
  induction 1 as [|i segment point rest Hi _ IH]; cbn [rank product_size]; nia.
Qed.

Lemma nth_error_product_rec (segments : list (list string)) (point : list nat) :
  point_of segments point ->
  nth_error (product_rec segments) (rank segments point)
  = Some (choose segments point).
Proof.
  induction 1 as [|i segment point rest Hi _ IH]; [reflexivity|].
  cbn [product_rec rank choose]. rewrite <- length_product_rec.
  now apply nth_error_stack.
Qed.

Lemma rank_onto (segments : list (list string)) :
  forall k, k < product_size segments ->
  exists point, point_of segments point /\ rank segments point = k.
Proof.
  induction segments as [|segment rest IH]; intros k Hk; cbn [product_size] in Hk.
  - exists []. split; [constructor | cbn; lia].
  - assert (Hpos : product_size rest <> 0) by nia.
    destruct (IH (k mod product_size rest)) as (point & Hpoint & Hrank).
    { now apply Nat.mod_upper_bound. }
    exists (k / product_size rest :: point). split.
    + constructor; [|exact Hpoint].
      apply Nat.Div0.div_lt_upper_bound. lia.
    + cbn [rank]. rewrite Hrank.
      rewrite (Nat.div_mod_eq k (product_size rest)) at 3. lia.
Qed.

Lemma rank_lex (segments : list (list string)) (p q : list nat) :
  point_of segments p -> point_of segments q ->
  lex_lt p q -> rank segments p < rank segments q.
Proof.
  intros Hp. revert q.
  induction Hp as [|i segment p rest Hi Hp IH]; intros q Hq Hlt.
  - inversion Hlt.
  - inversion Hq as [|j ? q' ? Hj Hq']; subst.
    cbn [rank]. inversion Hlt; subst.
    + pose proof (rank_bound _ _ Hp). pose proof (rank_bound _ _ Hq'). nia.
    + specialize (IH _ Hq' ltac:(assumption)). lia.
Qed.

End Rank.

(** C1.  [get_commands_from_arguments] returns as many commands as the
    product of the segments' lengths (a segment of one value counts for 1).
    The command at the position of a point of the Cartesian product, counted
    with the last index varying fastest, is the concatenation without
    separator of the values the point chooses, in segment order; every
    position of the output is the position of a point; and the positions
    follow the lexicographic order of the index tuples. *)
Theorem commands_are_the_product (segments : list (list string)) :
  List.length (get_commands_from_arguments segments) = product_size segments
  /\ (forall point : list nat,
        point_of segments point ->
        rank segments point < product_size segments
        /\ nth_error (get_commands_from_arguments segments) (rank segments point)
           = Some (PyStr.join "" (choose segments point)))
  /\ (forall k : nat,
        k < product_size segments ->
        exists point : list nat,
          point_of segments point /\ rank segments point = k)
  /\ (forall p q : list nat,
        point_of segments p -> point_of segments q ->
        lex_lt p q -> rank segments p < rank segments q).
Proof.
  unfold get_commands_from_arguments. rewrite product_is_product_rec.
  split; [|split; [|split]].
  - now rewrite length_map, length_product_rec.
  - intros point Hpoint. split; [now apply rank_bound|].
    now rewrite nth_error_map, nth_error_product_rec.
  - apply rank_onto.
  - apply rank_lex.
Qed.

Lemma commands_are_the_product_witness :
  nth_error
    (get_commands_from_arguments
       [["run --rate="]; ["1"; "2"; "3"]; [" --mode="]; ["a"; "b"]; [""]])
    (rank [["run --rate="]; ["1"; "2"; "3"]; [" --mode="]; ["a"; "b"]; [""]]
          [0; 2; 0; 1; 0])
  = Some "run --rate=3 --mode=b"
  /\ rank [["run --rate="]; ["1"; "2"; "3"]; [" --mode="]; ["a"; "b"]; [""]]
          [0; 1; 0; 1; 0]
     < rank [["run --rate="]; ["1"; "2"; "3"]; [" --mode="]; ["a"; "b"]; [""]]
            [0; 2; 0; 0; 0].
Proof.
  destruct (commands_are_the_product
              [["run --rate="]; ["1"; "2"; "3"]; [" --mode="]; ["a"; "b"]; [""]])
    as (_ & Hnth & _ & Hlex).
  split.
  - destruct (Hnth [0; 2; 0; 1; 0]) as [_ H]; [|exact H].
    repeat constructor.
  - apply Hlex; [repeat constructor | repeat constructor |].
    apply lex_lt_later, lex_lt_here. lia.
Defined.

(** ** The scan for folded arguments *)

Section Scan.

Variables (alts : Re.alternation) (text : string).

Lemma length_drop (n : nat) (s : string) :
  String.length (PyStr.drop n s) = String.length s - n.
Proof.
  revert s; induction n as [|n IH]; intros [|c s]; simpl; auto.
Qed.

Lemma drop_succ (n : nat) (s s' : string) (c : ascii) :
  PyStr.drop n s = String c s' -> PyStr.drop (S n) s = s'.
Proof.
  revert s; induction n as [|n IH]; intros s H.
  - rewrite drop_0 in H. subst s. cbn [PyStr.drop]. apply drop_0.
  - destruct s as [|d s]; [discriminate H|]. cbn [PyStr.drop] in H |- *.
    now apply IH.
Qed.

Lemma scanned_one_more (pos : nat) (ms : list Re.Match) :
  Re.match_here alts (PyStr.drop pos text) = None ->
  Scanned alts text (S pos) ms -> Scanned alts text pos ms.
Proof.
  intros Hnone Hs.
  assert (Hgap : forall P : nat -> Prop,
             P pos -> forall hi, (forall p, S pos <= p <= hi -> P p) ->
             forall p, pos <= p <= hi -> P p).
  { intros P H0 hi H p Hp. destruct (Nat.eq_dec p pos) as [->|Hne];
      [exact H0 | apply H; lia]. }
  inversion Hs as [from Hall|from p n gd ms' Hp Hbefore Hm Hrest]; subst.
  - apply scanned_end.
    apply (Hgap (fun p => Re.match_here alts (PyStr.drop p text) = None));
      assumption.
  - apply scanned_match; try assumption; [lia|].
    intros q Hq. destruct (Nat.eq_dec q pos) as [->|Hne];
      [exact Hnone | apply Hbefore; lia].
Qed.

Lemma scan_scanned (s : string) :
  forall pos skip,
    pos <= String.length text -> PyStr.drop pos text = s ->
    Scanned alts text (pos + skip) (Re.scan alts pos skip s).
Proof.
  induction s as [|c s IH]; intros pos skip Hpos Hdrop.
  - assert (Hlen : pos = String.length text).
    { apply (f_equal String.length) in Hdrop. rewrite length_drop in Hdrop.
      simpl in Hdrop. lia. }
    destruct skip as [|k]; cbn [Re.scan].
    + rewrite Nat.add_0_r.
      destruct (Re.match_here alts "") as [[n gd]|] eqn:Hm.
      * apply scanned_match; [lia | intros q Hq; lia | now rewrite Hdrop |].
        apply scanned_end. intros p Hp. lia.
      * apply scanned_end. intros p Hp.
        replace p with pos by lia. now rewrite Hdrop.
    + apply scanned_end. intros p Hp. lia.
  - assert (Hlt : pos < String.length text).
    { apply (f_equal String.length) in Hdrop. rewrite length_drop in Hdrop.
      simpl in Hdrop. lia. }
    pose proof (drop_succ _ _ _ _ Hdrop) as Hnext.
    destruct skip as [|k]; cbn [Re.scan].
    + rewrite Nat.add_0_r.
      destruct (Re.match_here alts (String c s)) as [[n gd]|] eqn:Hm.
      * apply scanned_match; [lia | intros q Hq; lia | now rewrite Hdrop |].
        replace (Nat.max (pos + n) (S pos)) with (S pos + (n - 1)) by lia.
        apply IH; [lia | exact Hnext].
      * apply scanned_one_more; [now rewrite Hdrop|].
        pose proof (IH (S pos) 0 ltac:(lia) Hnext) as H.
        now rewrite Nat.add_0_r in H.
    + replace (pos + S k) with (S pos + k) by lia.
      apply IH; [lia | exact Hnext].
Qed.

Lemma finditer_scanned : Scanned alts text 0 (Re.finditer alts text).
Proof.
  unfold Re.finditer. apply (scan_scanned text 0 0); [lia | apply drop_0].
Qed.

(** Consecutive matches of a scan do not overlap, and between the point
    where the scan resumes and the next match nothing matches. *)
Lemma scanned_consecutive (from : nat) (ms : list Re.Match) :
  Scanned alts text from ms ->
  forall l1 m m' l2,
    ms = l1 ++ m :: m' :: l2 ->
    Re.m_start m <= Re.m_end m /\ Re.m_end m <= Re.m_start m'
    /\ resume m <= Re.m_start m'
    /\ forall q, resume m <= q < Re.m_start m' ->
                 Re.match_here alts (PyStr.drop q text) = None.
Proof.
  induction 1 as [from Hall|from p n gd ms Hp Hbefore Hm Hrest IH];
    intros l1 m m' l2 E.
  - destruct l1; discriminate.
  - destruct l1 as [|m0 l1]; cbn [app] in E.
    + injection E as <- ->.
      inversion Hrest as [|from' p' n' gd' ms' Hp' Hbefore' Hm' Hrest']; subst.
      unfold resume. cbn [Re.m_start Re.m_end]. repeat split; try lia.
      exact Hbefore'.
    + injection E as _ ->. eapply IH. reflexivity.
Qed.

Lemma scanned_groupdict (from : nat) (ms : list Re.Match) :
  Scanned alts text from ms ->
  forall m, In m ms ->
    Re.m_start m <= String.length text
    /\ exists n, Re.m_end m = Re.m_start m + n
                 /\ Re.match_here alts (PyStr.drop (Re.m_start m) text)
                    = Some (n, Re.groupdict m).
Proof.
  induction 1 as [from Hall|from p n gd ms Hp Hbefore Hm Hrest IH];
    intros m Hin; [contradiction|].
  destruct Hin as [<-|Hin]; [|now apply IH].
  cbn [Re.m_start Re.m_end Re.groupdict]. split; [lia|].
  exists n. auto.
Qed.

End Scan.

Section Precedence.

Variable A : Argument.
Let R := RangeFoldedArgument A.
Let E := EnumerationFoldedArgument A.

Lemma match_here_precedence (s : string) :
  Re.match_here (master_regex [R; E]) s
  = match regex R s with
    | Some n => Some (n, [(name R, Some (substring 0 n s)); (name E, None)])
    | None =>
        match regex E s with
        | Some n =>
            Some (n, [(name R, None); (name E, Some (substring 0 n s))])
        | None => None
        end
    end.
Proof.
  cbn [master_regex map Re.match_here].
  destruct (regex R s); [reflexivity|].
  destruct (regex E s); reflexivity.
Qed.

End Precedence.

(** ** The segments of the unfolded arguments *)

Section Kinds.

(** Running the loop on items of type [X] and mapping them by [f]
    afterwards is running it on the mapped items. *)
Context {X Y : Type} (literal : string -> X) (folded : list string -> X)
  (f : X -> Y).

Lemma unfold_match_map (arguments : list FoldedArgument)
  (gd : list (string * option string)) :
  forall unfolded,
    unfold_match (fun values => f (folded values)) arguments gd
      (map f unfolded)
    = (r <- unfold_match folded arguments gd unfolded ;; Ok (map f r)).
Proof.
  induction arguments as [|argument rest IH]; intros unfolded;
    cbn [unfold_match]; [reflexivity|].
  destruct (Re.getitem gd (name argument)) as [[captured|]|e]; cbn [bind];
    [|apply IH | reflexivity].
  destruct (unfold argument captured) as [values|e]; cbn [bind];
    [|reflexivity].
  rewrite <- IH, map_app. reflexivity.
Qed.

Lemma unfold_loop_map (text : string) (arguments : list FoldedArgument)
  (ms : list Re.Match) :
  forall pos unfolded,
    unfold_loop (fun s => f (literal s)) (fun values => f (folded values))
      text arguments ms pos (map f unfolded)
    = (st <- unfold_loop literal folded text arguments ms pos unfolded ;;
       Ok (fst st, map f (snd st))).
Proof.
  induction ms as [|m rest IH]; intros pos unfolded; cbn [unfold_loop];
    [reflexivity|].
  replace (map f unfolded ++ [f (literal (PyStr.slice pos (Re.m_start m) text))])
    with (map f (unfolded ++ [literal (PyStr.slice pos (Re.m_start m) text)]))
    by (now rewrite map_app).
  rewrite unfold_match_map.
  destruct (unfold_match folded arguments (Re.groupdict m) _) as [r|e];
    cbn [bind]; [apply IH | reflexivity].
Qed.

Lemma unfold_run_map (A : Argument) (text : string) :
  unfold_run (fun s => f (literal s)) (fun values => f (folded values)) A text
  = (r <- unfold_run literal folded A text ;; Ok (map f r)).
Proof.
  unfold unfold_run.
  rewrite (unfold_loop_map text _ _ 0 []).
  destruct (unfold_loop literal folded text _ _ 0 []) as [[pos unfolded]|e];
    cbn [bind fst snd]; [|reflexivity].
  rewrite map_app. reflexivity.
Qed.

End Kinds.

Section Segments.

Variable A : Argument.
Local Abbreviation R := (RangeFoldedArgument A).
Local Abbreviation E := (EnumerationFoldedArgument A).
Local Abbreviation of_master := (of_master A).

Hypothesis names_differ : name R <> name E.

Lemma unfold_match_one (m : Re.Match) (unfolded : list Segment) :
  of_master m ->
  unfold_match Folded [R; E] (Re.groupdict m) unfolded
  = (values <- match_unfold A m ;; Ok (unfolded ++ [Folded values])).
Proof.
  intros (s & n & Hm). rewrite match_here_precedence in Hm.
  unfold match_unfold.
  assert (Hne : String.eqb (name R) (name E) = false)
    by now apply String.eqb_neq.
  destruct (regex R s) as [k|].
  - injection Hm as _ <-.
    cbn [unfold_match Re.getitem]. rewrite !String.eqb_refl, Hne.
    cbn [bind]. destruct (unfold R _); reflexivity.
  - destruct (regex E s) as [k|]; [|discriminate].
    injection Hm as _ <-.
    cbn [unfold_match Re.getitem]. rewrite !String.eqb_refl, Hne.
    cbn [bind]. destruct (unfold E _); reflexivity.
Qed.

Lemma unfold_loop_weave (text : string) (ms : list Re.Match) :
  Forall of_master ms ->
  forall pos unfolded,
    (st <- unfold_loop Literal Folded text [R; E] ms pos unfolded ;;
     let (pos', unfolded') := st in
     Ok (unfolded' ++ [Literal (PyStr.drop pos' text)]))
    = (segments <- weave A text pos ms ;; Ok (unfolded ++ segments)).
Proof.
  induction 1 as [|m rest Hm _ IH]; intros pos unfolded;
    cbn [unfold_loop weave bind]; [reflexivity|].
  rewrite unfold_match_one by assumption.
  destruct (match_unfold A m) as [values|e]; cbn [bind]; [|reflexivity].
  rewrite IH.
  destruct (weave A text (Re.m_end m) rest) as [segments|e]; cbn [bind];
    [|reflexivity].
  now rewrite <- !app_assoc.
Qed.

Lemma finditer_of_master (text : string) :
  Forall of_master (Re.finditer (master_regex [R; E]) text).
Proof.
  apply Forall_forall. intros m Hin.
  destruct (scanned_groupdict _ _ _ _ (finditer_scanned _ text) m Hin)
    as (_ & n & _ & Hm).
  now exists (PyStr.drop (Re.m_start m) text), n.
Qed.

Lemma unfold_run_weave (text : string) :
  unfold_run Literal Folded A text
  = weave A text 0 (Re.finditer (master_regex [R; E]) text).
Proof.
  unfold unfold_run.
  rewrite (unfold_loop_weave text _ (finditer_of_master text) 0 []).
  destruct (weave A text 0 _); reflexivity.
Qed.

End Segments.

Lemma weave_shape (A : Argument) (text : string) (ms : list Re.Match) :
  forall pos segments,
    weave A text pos ms = Ok segments ->
    List.length segments = 2 * List.length ms + 1
    /\ (forall i seg, nth_error segments i = Some seg ->
                      is_literal seg = Nat.even i)
    /\ (exists s, hd_error segments = Some (Literal s))
    /\ (exists s, last segments (Folded []) = Literal s).
Proof.
  induction ms as [|m rest IH]; intros pos segments Hw; cbn [weave] in Hw.
  - injection Hw as <-.
    split; [reflexivity | split; [|split; eexists; reflexivity]].
    intros [|[|i]] seg H; cbn in H; try discriminate.
    now injection H as <-.
  - destruct (match_unfold A m) as [values|e]; [|discriminate].
    cbn [bind] in Hw.
    destruct (weave A text (Re.m_end m) rest) as [tail|e] eqn:Htail;
      [|discriminate].
    injection Hw as <-.
    destruct (IH _ _ Htail) as (Hlen & Halt & _ & s & Hlast).
    split; [|split; [|split]].
    + cbn [List.length]. lia.
    + intros [|[|i]] seg H; cbn [nth_error] in H.
      * now injection H as <-.
      * now injection H as <-.
      * rewrite (Halt _ _ H). reflexivity.
    + eexists; reflexivity.
    + exists s. destruct tail as [|seg tail]; [cbn in Hlen; lia|].
      exact Hlast.
Qed.

(** C2.  When the two folded arguments have different names, the items
    [unfold_arguments] builds are, for each match of the scan in turn, a
    Literal for the text from the end of the previous match (or the start of
    the text) to the start of the match and a Folded for what the match
    unfolds to, and then, always, a Literal for the text after the last
    match; the function raises what the first failing [unfold] raises, and
    returns when none fails.  What it returns is these items, every value
    passed through [hex2str].  So the sequence is not empty, has odd length
    (one more than twice the number of matches), holds a Literal at each even
    index and a Folded at each odd index, and begins and ends with a
    Literal, an item of one value. *)
Theorem unfold_arguments_segments (U : Utils) (A : Argument)
  (arguments : list string) :
  name (RangeFoldedArgument A) <> name (EnumerationFoldedArgument A) ->
  let text := escape U (PyStr.join " " arguments) in
  let ms :=
    Re.finditer
      (master_regex [RangeFoldedArgument A; EnumerationFoldedArgument A]) text in
  unfold_segments U A arguments = weave A text 0 ms
  /\ unfold_arguments U A arguments
     = (segments <- unfold_segments U A arguments ;;
        Ok (map (fun seg => map (hex2str U) (segment_values seg)) segments))
  /\ (forall segments : list Segment,
        unfold_segments U A arguments = Ok segments ->
        segments <> []
        /\ List.length segments = 2 * List.length ms + 1
        /\ Nat.Odd (List.length segments)
        /\ (forall i seg, nth_error segments i = Some seg ->
                          is_literal seg = Nat.even i)
        /\ (exists s, hd_error segments = Some (Literal s)
                      /\ segment_values (Literal s) = [s])
        /\ (exists s, last segments (Folded []) = Literal s
                      /\ segment_values (Literal s) = [s]))
  /\ ((forall m, In m ms -> exists values, match_unfold A m = Ok values) ->
      exists segments, unfold_segments U A arguments = Ok segments).
Proof.
  intros Hnames text ms.
  assert (Hweave : unfold_segments U A arguments = weave A text 0 ms).
  { unfold unfold_segments. now apply unfold_run_weave. }
  split; [exact Hweave | split; [|split]].
  - unfold unfold_arguments, unfold_segments.
    rewrite (unfold_run_map Literal Folded segment_values).
    destruct (unfold_run Literal Folded A _) as [segments|e]; cbn [bind];
      [|reflexivity].
    now rewrite map_map.
  - intros segments Hs. rewrite Hweave in Hs.
    destruct (weave_shape _ _ _ _ _ Hs) as (Hlen & Halt & [s Hhd] & [s' Hlast]).
    repeat split; eauto.
    + intros ->. cbn in Hlen. lia.
    + exists (List.length ms). lia.
  - intros Hall. rewrite Hweave. clear Hweave. generalize 0 as pos.
    induction ms as [|m rest IH]; intros pos; cbn [weave]; [eauto|].
    destruct (Hall m (or_introl eq_refl)) as [values ->]. cbn [bind].
    destruct (IH (fun m' H => Hall m' (or_intror H)) (Re.m_end m)) as [tail ->].
    cbn [bind]. eauto.
Qed.

Lemma unfold_arguments_segments_witness :
  unfold_segments SpecModel.utils SpecModel.argument
    ["run"; "--rate=[1:3]"; "--mode=[a b]"]
  = Ok [Literal "run --rate="; Folded ["1"; "2"; "3"]; Literal " --mode=";
        Folded ["a"; "b"]; Literal ""]
  /\ unfold_arguments SpecModel.utils SpecModel.argument
       ["run"; "--rate=[1:3]"; "--mode=[a b]"]
     = Ok [["run --rate="]; ["1"; "2"; "3"]; [" --mode="]; ["a"; "b"]; [""]].
Proof.
  destruct (unfold_arguments_segments SpecModel.utils SpecModel.argument
              ["run"; "--rate=[1:3]"; "--mode=[a b]"]) as (Hs & Ha & _).
  - discriminate.
  - split; [rewrite Hs; reflexivity | rewrite Ha, Hs; reflexivity].
Defined.

(** ** The default prefix *)

Lemma default_prefix_ignores_call_time (defined t1 t2 : datetime) (U : Utils)
  (arguments : list (list string)) (max_length_arg max_length : option Z) :
  generate_name_from_arguments (define_generate_name_from_arguments defined)
    t1 U arguments max_length_arg max_length None
  = generate_name_from_arguments (define_generate_name_from_arguments defined)
      t2 U arguments max_length_arg max_length None.
Proof. reflexivity. Qed.

(** C7 does not hold of the code.  The default of [prefix] is computed once,
    when [generate_name_from_arguments] is defined: two calls without prefix
    made at different later times, whose timestamps differ, both get the
    timestamp of the definition as prefix. *)
Theorem default_prefix_is_bound_at_definition :
  let defined := Build_datetime 2020 1 2 3 14 5 in
  let t1 := Build_datetime 2020 1 2 3 15 0 in
  let t2 := Build_datetime 2020 1 2 16 0 30 in
  let D := define_generate_name_from_arguments defined in
  generate_name_from_arguments D t1 SpecModel.utils [["run"]; ["1"; "2"; "3"]]
    None None None
  = Ok "2020-01-02_03-14-05_run_1-3"
  /\ generate_name_from_arguments D t2 SpecModel.utils
       [["run"]; ["1"; "2"; "3"]] None None None
     = Ok "2020-01-02_03-14-05_run_1-3"
  /\ strftime t1 = "2020-01-02_03-15-00_"
  /\ strftime t2 = "2020-01-02_16-00-30_".
Proof. repeat split. Qed.

(** * Further properties *)

(** ** Reading the commands of a file back *)

Lemma split_char_fields (sep : ascii) (s : string) :
  PyStr.split_char sep s <> []
  /\ Forall (fun field => free_of sep field = true) (PyStr.split_char sep s)
  /\ List.length (PyStr.split_char sep s)
     = S (List.length
            (filter (fun c => Ascii.eqb c sep) (list_ascii_of_string s))).
Proof.
  induction s as [|c s (Hne & Hfree & Hlen)]; cbn [PyStr.split_char].
  - repeat split; [discriminate | repeat constructor].
  - cbn [list_ascii_of_string filter].
    destruct (Ascii.eqb c sep) eqn:Hc.
    + repeat split; [discriminate | now constructor | cbn; now rewrite Hlen].
    + destruct (PyStr.split_char sep s) as [|field fields]; [congruence|].
      inversion Hfree as [|? ? Hfield Hfields]; subst.
      repeat split; [discriminate | | exact Hlen].
      constructor; [|exact Hfields]. cbn [free_of]. now rewrite Hc, Hfield.
Qed.

Lemma join_split_char (sep : ascii) (s : string) :
  PyStr.join (String sep "") (PyStr.split_char sep s) = s.
Proof.
  induction s as [|c s IH]; [reflexivity|]. cbn [PyStr.split_char].
  destruct (Ascii.eqb_spec c sep) as [->|Hc].
  - rewrite join_cons by apply split_char_fields. now rewrite IH.
  - destruct (PyStr.split_char sep s) as [|field fields] eqn:E.
    + now destruct (split_char_fields sep s) as [H _].
    + rewrite <- IH. destruct fields; reflexivity.
Qed.

Lemma count_newlines_filter (s : string) :
  count_newlines s
  = List.length
      (filter (fun c => Ascii.eqb c PyStr.newline) (list_ascii_of_string s)).
Proof.
  induction s as [|c s IH]; [reflexivity|].
  cbn [count_newlines list_ascii_of_string filter]. rewrite IH.
  destruct (Ascii.eqb c PyStr.newline); reflexivity.
Qed.

Lemma rstrip_cases (s : string) :
  PyStr.rstrip s = "" \/ ends_with_text (PyStr.rstrip s) = true.
Proof.
  induction s as [|c s IH]; [now left|]. cbn [PyStr.rstrip].
  destruct (PyStr.rstrip s) as [|d r].
  - destruct (PyStr.isspace c) eqn:Hc; [now left | right].
    cbn. now rewrite Hc.
  - right. destruct IH as [IH|IH]; [discriminate IH | exact IH].
Qed.

Lemma ends_with_text_lstrip (s : string) :
  ends_with_text s = true -> ends_with_text (PyStr.lstrip s) = true.
Proof.
  induction s as [|c s IH]; [auto|]. intros H. cbn [PyStr.lstrip].
  destruct (PyStr.isspace c) eqn:Hc; [|exact H].
  apply IH. destruct s as [|d s]; [|exact H].
  cbn in H. now rewrite Hc in H.
Qed.

Lemma lstrip_idempotent (s : string) :
  PyStr.lstrip (PyStr.lstrip s) = PyStr.lstrip s.
Proof.
  induction s as [|c s IH]; [reflexivity|]. cbn [PyStr.lstrip].
  destruct (PyStr.isspace c) eqn:Hc; [exact IH|].
  cbn [PyStr.lstrip]. now rewrite Hc.
Qed.

Lemma strip_idempotent (s : string) : PyStr.strip (PyStr.strip s) = PyStr.strip s.
Proof.
  unfold PyStr.strip. destruct (rstrip_cases s) as [H|H].
  - rewrite H. reflexivity.
  - rewrite (ends_with_text_rstrip _ (ends_with_text_lstrip _ H)).
    apply lstrip_idempotent.
Qed.

(** X1.  The commands read from a file are never an empty list, none of
    them holds a newline, there is one more of them than there are newlines
    in the stripped text, and joined by newlines they give back the text
    stripped of the white space around it. *)
Theorem commands_join_back_to_stripped_text (text : string) :
  get_commands_from_file text <> []
  /\ Forall (fun command => free_of PyStr.newline command = true)
       (get_commands_from_file text)
  /\ List.length (get_commands_from_file text)
     = S (count_newlines (PyStr.strip text))
  /\ PyStr.join nl (get_commands_from_file text) = PyStr.strip text.
Proof.
  unfold get_commands_from_file.
  destruct (split_char_fields PyStr.newline (PyStr.strip text))
    as (Hne & Hfree & Hlen).
  repeat split; try assumption.
  - now rewrite count_newlines_filter.
  - apply join_split_char.
Qed.

(** X2.  Writing the commands read from a file one per line and reading
    them again gives the same commands: the written text has no white space
    left around it to strip. *)
Theorem commands_read_again (text : string) :
  PyStr.strip (PyStr.join nl (get_commands_from_file text))
  = PyStr.join nl (get_commands_from_file text)
  /\ get_commands_from_file (PyStr.join nl (get_commands_from_file text))
     = get_commands_from_file text.
Proof.
  unfold get_commands_from_file at 1 2 4.
  unfold nl. rewrite join_split_char, strip_idempotent.
  split; [reflexivity|].
  unfold get_commands_from_file. now rewrite strip_idempotent.
Qed.

(** ** More on the Cartesian product *)

Lemma product_size_zero (segments : list (list string)) :
  product_size segments = 0 <-> In [] segments.
Proof.
  induction segments as [|segment rest IH]; cbn [product_size In].
  - split; [discriminate | contradiction].
  - rewrite Nat.eq_mul_0, IH, List.length_zero_iff_nil. tauto.
Qed.

(** X3.  [get_commands_from_arguments] returns no command at all exactly
    when one of the segments has no value. *)
Theorem no_command_iff_empty_segment (segments : list (list string)) :
  get_commands_from_arguments segments = [] <-> In [] segments.
Proof.
  rewrite <- product_size_zero, <- length_product_rec,
    <- product_is_product_rec.
  unfold get_commands_from_arguments.
  rewrite <- List.length_zero_iff_nil, length_map. reflexivity.
Qed.

Lemma product_rec_singletons {A : Type} (l : list A) :
  product_rec (map (fun x => [x]) l) = [l].
Proof.
  induction l as [|x l IH]; [reflexivity|].
  cbn [map product_rec flat_map]. now rewrite IH.
Qed.

(** X4.  When every segment has exactly one value, there is exactly one
    command: the values concatenated in order. *)
Theorem one_command_of_single_values (texts : list string) :
  get_commands_from_arguments (map (fun text => [text]) texts)
  = [PyStr.join "" texts].
Proof.
  unfold get_commands_from_arguments.
  now rewrite product_is_product_rec, product_rec_singletons.
Qed.

Lemma join_empty_cons (x : string) (l : list string) :
  PyStr.join "" (x :: l) = (x ++ PyStr.join "" l)%string.
Proof. destruct l; [symmetry; apply append_nil_r | reflexivity]. Qed.

Lemma join_empty_app (a b : list string) :
  PyStr.join "" (a ++ b) = (PyStr.join "" a ++ PyStr.join "" b)%string.
Proof.
  induction a as [|x a IH]; [reflexivity|].
  cbn [app]. now rewrite !join_empty_cons, IH, append_assoc.
Qed.

Lemma product_rec_app {A : Type} (a b : list (list A)) :
  product_rec (a ++ b)
  = flat_map (fun x => map (app x) (product_rec b)) (product_rec a).
Proof.
  induction a as [|pool a IH]; cbn [app product_rec].
  - cbn [flat_map]. rewrite app_nil_r. symmetry. apply map_id.
  - rewrite IH. generalize (product_rec a) as tails.
    intros tails. induction pool as [|x pool IHp]; [reflexivity|].
    cbn [flat_map]. rewrite flat_map_app, IHp. f_equal.
    clear. induction tails as [|t tails IHt]; [reflexivity|].
    cbn [flat_map map]. now rewrite map_app, map_map, IHt.
Qed.

(** X5.  The commands of two lists of segments put end to end are the
    commands of the first list, each followed in turn by every command of
    the second list. *)
Theorem commands_of_appended_segments (a b : list (list string)) :
  get_commands_from_arguments (a ++ b)
  = flat_map
      (fun x => map (fun y => (x ++ y)%string) (get_commands_from_arguments b))
      (get_commands_from_arguments a).
Proof.
  unfold get_commands_from_arguments.
  rewrite !product_is_product_rec, product_rec_app.
  induction (product_rec a) as [|x xs IH]; [reflexivity|].
  cbn [flat_map map]. rewrite map_app, IH. f_equal.
  rewrite !map_map. apply map_ext. intros y. apply join_empty_app.
Qed.

(** ** More on the names *)

Lemma name_loop_raises (U : Utils) (m : option Z) (arguments : list (list string)) :
  In [] arguments ->
  forall name,
    name_loop U (normalize_max_length m) arguments name = Raise IndexError.
Proof.
  induction arguments as [|argvalues rest IH]; intros Hin name; [contradiction|].
  cbn [name_loop]. destruct argvalues as [|v vs]; [reflexivity|].
  rewrite name_step_label by discriminate. cbn [bind].
  apply IH. destruct Hin as [Hin|Hin]; [discriminate Hin | exact Hin].
Qed.

Lemma nonempty_or_not (arguments : list (list string)) :
  In [] arguments \/ Forall (fun argvalues => argvalues <> []) arguments.
Proof.
  induction arguments as [|[|v vs] rest [IH|IH]]; cbn [In]; auto.
  right. constructor; [discriminate | exact IH].
Qed.

(** X6.  [generate_name_from_arguments] raises [IndexError] exactly when one
    of the arguments has no value, and it raises nothing else. *)
Theorem name_raises_iff_empty_argument (D : Defaults) (now : datetime)
  (U : Utils) (arguments : list (list string))
  (max_length_arg max_length : option Z) (prefix : option string) :
  (generate_name_from_arguments D now U arguments max_length_arg max_length
     prefix = Raise IndexError
   <-> In [] arguments)
  /\ (forall e,
        generate_name_from_arguments D now U arguments max_length_arg
          max_length prefix = Raise e ->
        e = IndexError).
Proof.
  unfold generate_name_from_arguments.
  destruct (nonempty_or_not arguments) as [Hin|Hall].
  - rewrite name_loop_raises by assumption. cbn [bind].
    split; [tauto | now intros e [= <-]].
  - rewrite name_loop_labels by assumption. cbn [bind].
    split; [|discriminate].
    split; [discriminate|].
    intros Hin. rewrite Forall_forall in Hall. now destruct (Hall _ Hin).
Qed.

Lemma length_trim (m : Z) (s : string) :
  m <> 0%Z -> String.length (trim (Some m) s) <= Z.abs_nat m.
Proof.
  intros Hm. unfold trim. destruct (Z.eqb_spec m 0); [contradiction|].
  destruct (keep_last_suffix (Z.abs_nat m) s) as (_ & _ & Hl). lia.
Qed.

(** X7.  A bound [max_length] other than zero limits the name of a command
    to [|max_length|] characters.  For the name of arguments it limits only
    what follows the prefix: the name is the prefix, whole, followed by at
    most [|max_length|] characters. *)
Theorem name_length_bounds (U : Utils) (m : Z) :
  m <> 0%Z ->
  (forall (command : string) (max_length_arg : option Z),
     String.length (generate_name_from_command U command max_length_arg (Some m))
     <= Z.abs_nat m)
  /\ (forall (D : Defaults) (now : datetime) (arguments : list (list string))
             (max_length_arg : option Z) (prefix name : string),
        generate_name_from_arguments D now U arguments max_length_arg (Some m)
          (Some prefix) = Ok name ->
        exists rest,
          name = (prefix ++ rest)%string /\ String.length rest <= Z.abs_nat m).
Proof.
  intros Hm. split.
  - intros command mla. rewrite generate_name_from_command_trim.
    now apply length_trim.
  - intros D now arguments mla prefix name.
    unfold generate_name_from_arguments.
    destruct (name_loop U _ arguments []) as [labels|e]; cbn [bind];
      [|discriminate].
    rewrite slice_from_trim. intros H. injection H as <-.
    eexists. split; [reflexivity | now apply length_trim].
Qed.

Lemma name_length_bounds_witness :
  String.length
    (generate_name_from_command SpecModel.utils "run --alpha=1 --beta=2" None
       (Some (-5)%Z))
  <= 5
  /\ exists rest,
       "2020-01-02_job_-mma"
       = ("2020-01-02_job_" ++ rest)%string /\ String.length rest <= 4.
Proof.
  split.
  - destruct (name_length_bounds SpecModel.utils (-5)%Z) as [H _]; [lia|].
    apply H.
  - destruct (name_length_bounds SpecModel.utils 4%Z) as [_ H]; [lia|].
    apply (H (define_generate_name_from_arguments (Build_datetime 2020 1 2 3 4 5))
             (Build_datetime 2020 1 2 3 4 5)
             [["run"]; ["alpha"; "beta"; "gamma"]] (Some 3%Z)).
    reflexivity.
Defined.

(** X8.  A bound of zero does not empty a name: with [max_length_arg] and
    [max_length] zero both generators return the name they return without
    bounds. *)
Theorem zero_bound_is_no_bound (U : Utils) :
  (forall command : string,
     generate_name_from_command U command (Some 0%Z) (Some 0%Z)
     = generate_name_from_command U command None None)
  /\ (forall (D : Defaults) (now : datetime) (arguments : list (list string))
             (prefix : option string),
        generate_name_from_arguments D now U arguments (Some 0%Z) (Some 0%Z)
          prefix
        = generate_name_from_arguments D now U arguments None None prefix).
Proof.
  split.
  - intros command. now rewrite !generate_name_from_command_trim.
  - intros D now arguments prefix. unfold generate_name_from_arguments.
    destruct (nonempty_or_not arguments) as [Hin|Hall].
    + now rewrite !name_loop_raises.
    + rewrite !name_loop_labels by assumption. cbn [bind].
      now rewrite !slice_from_trim.
Qed.

Lemma name_step_same_ends (U : Utils) (m : option Z) (name a b : list string) :
  same_ends a b ->
  name_step U (normalize_max_length m) name a
  = name_step U (normalize_max_length m) name b.
Proof.
  intros [c|v w mid mid']; [reflexivity|].
  rewrite !name_step_label by discriminate. unfold label.
  cbn [hd List.length]. rewrite !length_app. cbn [List.length].
  replace (Nat.ltb 1 (S (List.length mid + 1))) with true
    by (symmetry; apply Nat.ltb_lt; lia).
  replace (Nat.ltb 1 (S (List.length mid' + 1))) with true
    by (symmetry; apply Nat.ltb_lt; lia).
  change (v :: mid ++ [w]) with ((v :: mid) ++ [w]).
  change (v :: mid' ++ [w]) with ((v :: mid') ++ [w]).
  now rewrite !last_last.
Qed.

(** X9.  The name of arguments depends on the first and the last value of
    each argument only: replacing the values between them by any others
    changes neither the name nor whether it is raised. *)
Theorem name_ignores_inner_values (D : Defaults) (now : datetime) (U : Utils)
  (arguments arguments' : list (list string))
  (max_length_arg max_length : option Z) (prefix : option string) :
  Forall2 same_ends arguments arguments' ->
  generate_name_from_arguments D now U arguments max_length_arg max_length
    prefix
  = generate_name_from_arguments D now U arguments' max_length_arg max_length
      prefix.
Proof.
  intros Hsame. unfold generate_name_from_arguments.
  assert (Hloop : forall name,
             name_loop U (normalize_max_length max_length_arg) arguments name
             = name_loop U (normalize_max_length max_length_arg) arguments'
                 name).
  { induction Hsame as [|a b rest rest' Hab _ IH]; intros name; [reflexivity|].
    cbn [name_loop]. rewrite (name_step_same_ends _ _ _ _ _ Hab).
    destruct (name_step U _ name b); cbn [bind]; [apply IH | reflexivity]. }
  now rewrite Hloop.
Qed.

Lemma name_ignores_inner_values_witness :
  generate_name_from_arguments
    (define_generate_name_from_arguments (Build_datetime 2020 1 2 3 4 5))
    (Build_datetime 2020 1 2 3 4 5) SpecModel.utils
    [["run --x="]; ["1"; "2"; "3"; "4"; "5"]] None None (Some "")
  = generate_name_from_arguments
      (define_generate_name_from_arguments (Build_datetime 2020 1 2 3 4 5))
      (Build_datetime 2020 1 2 3 4 5) SpecModel.utils
      [["run --x="]; ["1"; "3"; "5"]] None None (Some "").
Proof.
  apply name_ignores_inner_values.
  constructor; [apply same_ends_refl | constructor; [|constructor]].
  apply (same_ends_between "1" "5" ["2"; "3"; "4"] ["3"]).
Defined.

Lemma split_app_blank_l (pre s : string) :
  blank pre = true -> PyStr.split (pre ++ s) = PyStr.split s.
Proof.
  induction pre as [|c pre IH]; [reflexivity|]. cbn [blank append PyStr.split].
  intros H. apply andb_prop in H as [Hc Hpre]. rewrite Hc. auto.
Qed.

Lemma split_app_blank_r (s post : string) :
  blank post = true -> PyStr.split (s ++ post) = PyStr.split s.
Proof.
  intros Hpost. induction s as [|c s IH].
  - cbn [append]. now apply split_blank.
  - cbn [append PyStr.split]. rewrite IH.
    destruct (PyStr.isspace c); [reflexivity|].
    destruct s as [|d s]; [|reflexivity].
    cbn [append]. destruct post as [|d post]; [reflexivity|].
    cbn [blank] in Hpost. apply andb_prop in Hpost as [Hd Hpost].
    rewrite Hd. reflexivity.
Qed.

(** X10.  White space before and after a command does not change its
    name. *)
Theorem name_ignores_surrounding_space (U : Utils) (pre command post : string)
  (max_length_arg max_length : option Z) :
  blank pre = true -> blank post = true ->
  generate_name_from_command U (pre ++ command ++ post) max_length_arg
    max_length
  = generate_name_from_command U command max_length_arg max_length.
Proof.
  intros Hpre Hpost. unfold generate_name_from_command.
  now rewrite split_app_blank_l, split_app_blank_r.
Qed.

Lemma name_ignores_surrounding_space_witness :
  generate_name_from_command SpecModel.utils
    ("  " ++ "run --alpha=1" ++ (" " ++ nl)) (Some 3%Z) None
  = generate_name_from_command SpecModel.utils "run --alpha=1" (Some 3%Z) None.
Proof. apply name_ignores_surrounding_space; reflexivity. Defined.

(** ** More on the tag *)

(** X11.  When the UID of every command is a non-empty text that shares no
    character with the tag, [replace_uid_tag] changes exactly the commands
    that hold the tag. *)
Theorem tagged_commands_are_the_changed_ones (U : Utils)
  (commands : list string) :
  (forall command : string,
     generate_uid_from_string U command <> ""
     /\ shares_no_char (generate_uid_from_string U command) UID_TAG = true) ->
  forall (i : nat) (command : string),
    nth_error commands i = Some command ->
    (nth_error (replace_uid_tag U commands) i = Some command
     <-> PyStr.contains UID_TAG command = false).
Proof.
  intros Huid i command Hi. unfold replace_uid_tag.
  rewrite nth_error_map, Hi. cbn [option_map].
  destruct (Huid command) as [Hne Hv]. split.
  - intros [= H]. rewrite <- H. now apply replace_removes_tag.
  - intros H. f_equal. now apply replace_absent.
Qed.

Lemma tagged_commands_are_the_changed_ones_witness :
  nth_error (replace_uid_tag SpecModel.utils ["job_{UID}"; "job {UID"]) 1
  = Some "job {UID".
Proof.
  apply (tagged_commands_are_the_changed_ones SpecModel.utils
           ["job_{UID}"; "job {UID"] model_uid_apart 1 "job {UID" eq_refl).
  reflexivity.
Defined.

(** ** More on the unfolded arguments *)

Lemma scan_nothing (alts : Re.alternation) (s : string) :
  forall pos,
    (forall q, q <= String.length s ->
               Re.match_here alts (PyStr.drop q s) = None) ->
    Re.scan alts pos 0 s = [].
Proof.
  induction s as [|c s IH]; intros pos Hnone; cbn [Re.scan];
    pose proof (Hnone 0 (Nat.le_0_l _)) as H0; rewrite drop_0 in H0;
    rewrite H0; [reflexivity|].
  apply IH. intros q Hq. apply (Hnone (S q)). cbn. lia.
Qed.

(** X12.  When neither pattern matches anywhere in the escaped text of the
    arguments, [unfold_arguments] returns one item of one value, the whole
    text passed through [hex2str], and [get_commands_from_arguments] makes
    of it exactly one command, that value. *)
Theorem no_folded_argument_one_command (U : Utils) (A : Argument)
  (arguments : list string) :
  let text := escape U (PyStr.join " " arguments) in
  (forall q, q <= String.length text ->
     regex (RangeFoldedArgument A) (PyStr.drop q text) = None
     /\ regex (EnumerationFoldedArgument A) (PyStr.drop q text) = None) ->
  unfold_arguments U A arguments = Ok [[hex2str U text]]
  /\ bind (unfold_arguments U A arguments)
       (fun unfolded => Ok (get_commands_from_arguments unfolded))
     = Ok [hex2str U text].
Proof.
  intros text Hnone.
  assert (H : unfold_arguments U A arguments = Ok [[hex2str U text]]).
  { unfold unfold_arguments, unfold_run, Re.finditer. fold text.
    rewrite scan_nothing.
    - cbn. rewrite ?drop_0. reflexivity.
    - intros q Hq. rewrite match_here_precedence.
      destruct (Hnone q Hq) as [-> ->]. reflexivity. }
  split; [exact H | rewrite H; reflexivity].
Qed.

Lemma no_folded_argument_one_command_witness :
  bind (unfold_arguments SpecModel.utils SpecModel.argument ["run"; "--x=1"])
    (fun unfolded => Ok (get_commands_from_arguments unfolded))
  = Ok ["run --x=1"].
Proof.
  apply (no_folded_argument_one_command SpecModel.utils SpecModel.argument
           ["run"; "--x=1"]).
  intros q Hq.
  do 10 (destruct q as [|q]; [vm_compute; auto|]).
  vm_compute in Hq. lia.
Defined.

Section Coverage.

Variable text : string.

Lemma take_drop (k : nat) (s : string) :
  (substring 0 k s ++ PyStr.drop k s)%string = s.
Proof.
  revert s; induction k as [|k IH]; intros [|c s]; cbn; try reflexivity.
  now rewrite IH.
Qed.

Lemma substring_drop (a k : nat) (s : string) :
  substring a k s = substring 0 k (PyStr.drop a s).
Proof.
  revert s; induction a as [|a IH]; intros s; [now rewrite drop_0|].
  destruct s as [|c s]; [destruct k; reflexivity|].
  cbn [substring PyStr.drop]. apply IH.
Qed.

Lemma drop_drop (a k : nat) (s : string) :
  PyStr.drop k (PyStr.drop a s) = PyStr.drop (a + k) s.
Proof.
  revert s; induction a as [|a IH]; intros s; [now rewrite drop_0|].
  destruct s as [|c s]; [destruct k; reflexivity|].
  cbn [PyStr.drop Nat.add]. apply IH.
Qed.

Lemma slice_then_drop (a b : nat) (s : string) :
  a <= b -> (PyStr.slice a b s ++ PyStr.drop b s)%string = PyStr.drop a s.
Proof.
  intros Hab. unfold PyStr.slice. rewrite substring_drop.
  replace b with (a + (b - a)) at 2 by lia.
  rewrite <- drop_drop. apply take_drop.
Qed.

Lemma spans_join (alts : Re.alternation) (from : nat) (ms : list Re.Match) :
  Scanned alts text from ms ->
  forall pos, pos <= from ->
    PyStr.join "" (spans text pos ms) = PyStr.drop pos text.
Proof.
  induction 1 as [from Hall|from p n gd ms Hp Hbefore Hm Hrest IH];
    intros pos Hpos; [reflexivity|].
  cbn [spans Re.m_start Re.m_end]. rewrite !join_empty_cons.
  rewrite IH by lia. rewrite slice_then_drop by lia.
  apply slice_then_drop. lia.
Qed.

Variable A : Argument.
Local Abbreviation R := (RangeFoldedArgument A).
Local Abbreviation E := (EnumerationFoldedArgument A).

Lemma matched_text_is_slice (m : Re.Match) :
  In m (Re.finditer (master_regex [R; E]) text) ->
  matched_text (Re.groupdict m)
  = PyStr.slice (Re.m_start m) (Re.m_end m) text.
Proof.
  intros Hin.
  destruct (scanned_groupdict _ _ _ _ (finditer_scanned _ text) m Hin)
    as (_ & n & Hend & Hm).
  rewrite match_here_precedence in Hm. unfold PyStr.slice.
  rewrite Hend, Nat.add_comm, Nat.add_sub, substring_drop.
  destruct (regex R _) as [k|].
  - injection Hm as -> <-. reflexivity.
  - destruct (regex E _) as [k|]; [|discriminate].
    injection Hm as -> <-. reflexivity.
Qed.

Lemma weave_source_texts (ms : list Re.Match) :
  Forall (fun m => matched_text (Re.groupdict m)
                   = PyStr.slice (Re.m_start m) (Re.m_end m) text) ms ->
  forall pos segments,
    weave A text pos ms = Ok segments ->
    source_texts segments ms = spans text pos ms.
Proof.
  induction 1 as [|m rest Hm _ IH]; intros pos segments Hw; cbn [weave] in Hw.
  - now injection Hw as <-.
  - destruct (match_unfold A m) as [values|e]; [|discriminate].
    cbn [bind] in Hw.
    destruct (weave A text (Re.m_end m) rest) as [tail|e] eqn:Htail;
      [|discriminate].
    injection Hw as <-. cbn [source_texts spans].
    now rewrite Hm, (IH _ _ Htail).
Qed.

Lemma weave_product_size (U : Utils) (ms : list Re.Match) :
  forall pos segments,
    weave A text pos ms = Ok segments ->
    product_size
      (map (fun seg => map (hex2str U) (segment_values seg)) segments)
    = fold_right Nat.mul 1 (map (values_count A) ms).
Proof.
  induction ms as [|m rest IH]; intros pos segments Hw; cbn [weave] in Hw.
  - now injection Hw as <-.
  - cbn [map fold_right]. unfold values_count at 1.
    destruct (match_unfold A m) as [values|e]; [|discriminate].
    cbn [bind] in Hw.
    destruct (weave A text (Re.m_end m) rest) as [tail|e] eqn:Htail;
      [|discriminate].
    injection Hw as <-.
    cbn [map product_size segment_values List.length].
    rewrite (IH _ _ Htail), length_map. lia.
Qed.

End Coverage.

Lemma unfold_arguments_weave (U : Utils) (A : Argument) (arguments : list string) :
  name (RangeFoldedArgument A) <> name (EnumerationFoldedArgument A) ->
  unfold_arguments U A arguments
  = (segments <-
       weave A (escape U (PyStr.join " " arguments)) 0
         (Re.finditer
            (master_regex [RangeFoldedArgument A; EnumerationFoldedArgument A])
            (escape U (PyStr.join " " arguments))) ;;
     Ok (map (fun seg => map (hex2str U) (segment_values seg)) segments)).
Proof.
  intros Hnames. unfold unfold_arguments.
  rewrite (unfold_run_map Literal Folded segment_values).
  rewrite unfold_run_weave by assumption.
  destruct (weave A _ 0 _) as [segments|e]; cbn [bind]; [|reflexivity].
  now rewrite map_map.
Qed.

(** X13.  The segments of the unfolded arguments cover the escaped text end
    to end: with each Folded put back to the text its match covered, the
    segments concatenated in order are the escaped text of the arguments. *)
Theorem segments_cover_the_text (U : Utils) (A : Argument)
  (arguments : list string) (segments : list Segment) :
  name (RangeFoldedArgument A) <> name (EnumerationFoldedArgument A) ->
  unfold_segments U A arguments = Ok segments ->
  let text := escape U (PyStr.join " " arguments) in
  PyStr.join ""
    (source_texts segments
       (Re.finditer
          (master_regex [RangeFoldedArgument A; EnumerationFoldedArgument A])
          text))
  = text.
Proof.
  intros Hnames Hs text. unfold unfold_segments in Hs. fold text in Hs.
  rewrite unfold_run_weave in Hs by assumption.
  rewrite (weave_source_texts text A _ (proj2 (Forall_forall _ _)
             (matched_text_is_slice text A)) _ _ Hs).
  rewrite (spans_join text _ _ _ (finditer_scanned _ text) 0 (le_n _)).
  apply drop_0.
Qed.

Lemma segments_cover_the_text_witness :
  PyStr.join ""
    (source_texts
       [Literal "run --rate="; Folded ["1"; "2"; "3"]; Literal " --mode=";
        Folded ["a"; "b"]; Literal ""]
       (Re.finditer
          (master_regex [RangeFoldedArgument SpecModel.argument;
                         EnumerationFoldedArgument SpecModel.argument])
          "run --rate=[1:3] --mode=[a b]"))
  = "run --rate=[1:3] --mode=[a b]".
Proof.
  apply (segments_cover_the_text SpecModel.utils SpecModel.argument
           ["run"; "--rate=[1:3]"; "--mode=[a b]"]);
    [discriminate | reflexivity].
Defined.

(** X14.  The number of commands made of the unfolded arguments is the
    product, over the folded arguments found in the text, of the number of
    values each unfolds to. *)
Theorem number_of_commands_of_arguments (U : Utils) (A : Argument)
  (arguments : list string) (unfolded : list (list string)) :
  name (RangeFoldedArgument A) <> name (EnumerationFoldedArgument A) ->
  unfold_arguments U A arguments = Ok unfolded ->
  List.length (get_commands_from_arguments unfolded)
  = fold_right Nat.mul 1
      (map (values_count A)
         (Re.finditer
            (master_regex [RangeFoldedArgument A; EnumerationFoldedArgument A])
            (escape U (PyStr.join " " arguments)))).
Proof.
  intros Hnames Hu. rewrite unfold_arguments_weave in Hu by assumption.
  destruct (weave A _ 0 _) as [segments|e] eqn:Hw; [|discriminate].
  cbn [bind] in Hu. injection Hu as <-.
  unfold get_commands_from_arguments.
  rewrite length_map, product_is_product_rec, length_product_rec.
  exact (weave_product_size _ A U _ 0 _ Hw).
Qed.

Lemma number_of_commands_of_arguments_witness :
  List.length
    (get_commands_from_arguments
       [["run --rate="]; ["1"; "2"; "3"]; [" --mode="]; ["a"; "b"]; [""]])
  = 6.
Proof.
  apply (number_of_commands_of_arguments SpecModel.utils SpecModel.argument
           ["run"; "--rate=[1:3]"; "--mode=[a b]"]);
    [discriminate | reflexivity].
Defined.

(** ** The configuration file of a cluster *)

Section Paths.

Lemma cut_without_sep (base : string) :
  free_of "/" base = true -> OsPath.cut base = ("", base).
Proof.
  induction base as [|c base IH]; [reflexivity|]. cbn [free_of OsPath.cut].
  intros H. apply andb_prop in H as [Hc Hbase]. rewrite (IH Hbase).
  unfold OsPath.is_sep. now rewrite (proj1 (negb_true_iff _) Hc).
Qed.

Lemma cut_at_last_sep (dir base : string) :
  free_of "/" base = true ->
  OsPath.cut (dir ++ "/" ++ base) = ((dir ++ "/")%string, base).
Proof.
  intros Hbase. induction dir as [|c dir IH].
  - cbn [append OsPath.cut]. now rewrite cut_without_sep.
  - cbn [append OsPath.cut]. cbn [append] in IH. rewrite IH.
    destruct dir; reflexivity.
Qed.

Lemma rstrip_sep_unslashed (dir : string) :
  OsPath.endswith_sep dir = false -> OsPath.rstrip_sep dir = dir.
Proof.
  induction dir as [|c dir IH]; [reflexivity|].
  destruct dir as [|d dir].
  - cbn. now intros ->.
  - intros H. change (OsPath.endswith_sep (String d dir) = false) in H.
    change (OsPath.rstrip_sep (String c (String d dir)))
      with (match OsPath.rstrip_sep (String d dir) with
            | EmptyString =>
                if OsPath.is_sep c then EmptyString else String c EmptyString
            | r => String c r
            end).
    now rewrite (IH H).
Qed.

Lemma rstrip_sep_slashed (dir : string) :
  OsPath.rstrip_sep (dir ++ "/") = OsPath.rstrip_sep dir.
Proof.
  induction dir as [|c dir IH]; [reflexivity|].
  cbn [append OsPath.rstrip_sep]. now rewrite IH.
Qed.

Lemma all_sep_unslashed (dir rest : string) :
  dir <> "" -> OsPath.endswith_sep dir = false ->
  OsPath.all_sep (dir ++ rest) = false.
Proof.
  induction dir as [|c dir IH]; [congruence|]. intros _ H.
  cbn [append OsPath.all_sep]. destruct dir as [|d dir].
  - cbn in H. now rewrite H.
  - rewrite IH; [apply andb_false_r | discriminate | exact H].
Qed.

Lemma split_dir_base (dir base : string) :
  dir <> "" -> OsPath.endswith_sep dir = false -> free_of "/" base = true ->
  OsPath.split (dir ++ "/" ++ base) = (dir, base).
Proof.
  intros Hne Hdir Hbase. unfold OsPath.split.
  rewrite cut_at_last_sep by assumption.
  rewrite all_sep_unslashed by assumption.
  destruct dir as [|c dir]; [congruence|]. cbn [append String.eqb negb andb].
  change (String c (dir ++ "/"))%string with (String c dir ++ "/")%string.
  now rewrite rstrip_sep_slashed, rstrip_sep_unslashed.
Qed.

Lemma endswith_sep_app (a b : string) :
  b <> "" -> OsPath.endswith_sep (a ++ b) = OsPath.endswith_sep b.
Proof.
  intros Hb. induction a as [|c a IH]; [reflexivity|].
  cbn [append OsPath.endswith_sep]. rewrite IH.
  destruct (a ++ b)%string eqn:E; [|reflexivity].
  destruct a; [cbn in E; congruence | discriminate E].
Qed.

Lemma join_relative (a b : string) :
  a <> "" -> OsPath.endswith_sep a = false -> OsPath.startswith_sep b = false ->
  OsPath.join a b = (a ++ "/" ++ b)%string.
Proof.
  intros Ha Hend Hb. unfold OsPath.join. rewrite Hb, Hend.
  destruct a; [congruence | reflexivity].
Qed.

Lemma startswith_sep_app (a b : string) :
  OsPath.startswith_sep a = false -> OsPath.startswith_sep b = false ->
  OsPath.startswith_sep (a ++ b) = false.
Proof. destruct a; auto. Qed.

End Paths.

(** X15.  When [smartdispatch.__file__] is a file [base] in a directory
    [dir] (not empty, not ending with a slash) and the cluster name does not
    start with a slash, [get_available_queues] looks at the file
    [dir/config/<cluster name>.json]: it returns what
    [load_dict_from_json_file] returns or raises for it when it is a file,
    and the empty dictionary otherwise. *)
Theorem queues_of_a_cluster {J : Type} (D : QueueDefaults) (M : Machine J)
  (dir base cluster_name : string) :
  smartdispatch_file M = (dir ++ "/" ++ base)%string ->
  dir <> "" -> OsPath.endswith_sep dir = false -> free_of "/" base = true ->
  OsPath.startswith_sep cluster_name = false ->
  let path := (dir ++ "/config/" ++ cluster_name ++ ".json")%string in
  config_filepath M cluster_name = path
  /\ get_available_queues D M (Some (Some cluster_name))
     = if isfile M path then load_dict_from_json_file M path
       else Ok (empty_dict M).
Proof.
  intros Hfile Hne Hdir Hbase Hname path.
  assert (Hpath : config_filepath M cluster_name = path).
  { unfold config_filepath. rewrite Hfile, split_dir_base by assumption.
    rewrite (join_relative dir "config") by (assumption || reflexivity).
    rewrite join_relative.
    - unfold path. now rewrite !append_assoc.
    - destruct dir; [congruence | discriminate].
    - now rewrite <- append_assoc, endswith_sep_app.
    - now apply startswith_sep_app. }
  split; [exact Hpath|].
  unfold get_available_queues. rewrite Hpath.
  destruct (isfile M path); reflexivity.
Qed.

Lemma queues_of_a_cluster_witness :
  let M := {| smartdispatch_file := "/opt/smartdispatch/__init__.py";
              isfile := String.eqb "/opt/smartdispatch/config/guillimin.json";
              load_dict_from_json_file := fun _ => Ok [("sw", 12)];
              empty_dict := [] |} in
  get_available_queues (define_get_available_queues None) M
    (Some (Some "guillimin"))
  = Ok [("sw", 12)]
  /\ get_available_queues (define_get_available_queues None) M
       (Some (Some "mammouth"))
     = Ok [].
Proof.
  intros M. split.
  - destruct (queues_of_a_cluster (define_get_available_queues None) M
                "/opt/smartdispatch" "__init__.py" "guillimin" eq_refl
                ltac:(discriminate) eq_refl eq_refl eq_refl) as [_ H].
    exact H.
  - destruct (queues_of_a_cluster (define_get_available_queues None) M
                "/opt/smartdispatch" "__init__.py" "mammouth" eq_refl
                ltac:(discriminate) eq_refl eq_refl eq_refl) as [_ H].
    exact H.
Defined.

(** X16.  A cluster name that starts with a slash is not looked up in the
    configuration directory of the package: whatever
    [smartdispatch.__file__] is, the file consulted is the cluster name
    itself followed by [.json]. *)
Theorem absolute_cluster_name_leaves_config_dir {J : Type} (D : QueueDefaults)
  (M : Machine J) (cluster_name : string) :
  OsPath.startswith_sep cluster_name = true ->
  config_filepath M cluster_name = (cluster_name ++ ".json")%string
  /\ get_available_queues D M (Some (Some cluster_name))
     = if isfile M (cluster_name ++ ".json")
       then load_dict_from_json_file M (cluster_name ++ ".json")
       else Ok (empty_dict M).
Proof.
  intros Hname.
  assert (Hpath : config_filepath M cluster_name
                  = (cluster_name ++ ".json")%string).
  { unfold config_filepath.
    destruct (OsPath.split (smartdispatch_file M)) as [smartdispatch_dir tail].
    unfold OsPath.join at 1.
    replace (OsPath.startswith_sep (cluster_name ++ ".json")) with true;
      [reflexivity|].
    destruct cluster_name; [discriminate Hname | symmetry; exact Hname]. }
  split; [exact Hpath|].
  unfold get_available_queues. rewrite Hpath.
  destruct (isfile M _); reflexivity.
Qed.

Lemma absolute_cluster_name_leaves_config_dir_witness :
  config_filepath
    {| smartdispatch_file := "/opt/smartdispatch/__init__.py";
       isfile := fun _ => false;
       load_dict_from_json_file := fun _ => Ok 0;
       empty_dict := 0 |}
    "/tmp/mine"
  = "/tmp/mine.json".
Proof.
  destruct (absolute_cluster_name_leaves_config_dir
              (define_get_available_queues None)
              {| smartdispatch_file := "/opt/smartdispatch/__init__.py";
                 isfile := fun _ => false;
                 load_dict_from_json_file := fun _ => Ok 0;
                 empty_dict := 0 |}
              "/tmp/mine" eq_refl) as [H _].
  exact H.
Defined.

(** ** The order of the two patterns in the unfolder *)

Section Order.

Variables (A : Argument) (text : string).
Local Abbreviation R := (RangeFoldedArgument A).
Local Abbreviation E := (EnumerationFoldedArgument A).

Lemma match_here_chosen_none (s : string) :
  Re.match_here (master_regex [R; E]) s = None -> chosen A s = None.
Proof.
  rewrite match_here_precedence. unfold chosen.
  destruct (regex R s); [discriminate|].
  destruct (regex E s); [discriminate | reflexivity].
Qed.

Lemma match_here_chosen_some (s : string) (n : nat)
  (gd : list (string * option string)) :
  Re.match_here (master_regex [R; E]) s = Some (n, gd) ->
  exists F,
    chosen A s = Some (F, n)
    /\ forall m, Re.groupdict m = gd ->
                 match_unfold A m = unfold F (substring 0 n s).
Proof.
  rewrite match_here_precedence. unfold chosen, match_unfold.
  destruct (regex R s) as [k|].
  - intros [= -> <-]. exists R. split; [reflexivity|]. now intros m ->.
  - destruct (regex E s) as [k|]; [|discriminate].
    intros [= -> <-]. exists E. split; [reflexivity|]. now intros m ->.
Qed.

Lemma scanned_unfolds (from : nat) (ms : list Re.Match) :
  Scanned (master_regex [R; E]) text from ms ->
  forall pos, Unfolds A text from pos (weave A text pos ms).
Proof.
  induction 1 as [from Hall|from p n gd ms Hp Hbefore Hm Hrest IH]; intros pos.
  - apply unfolds_end. intros p Hp. now apply match_here_chosen_none, Hall.
  - destruct (match_here_chosen_some _ _ _ Hm) as (F & Hchosen & Hunfold).
    cbn [weave Re.m_start Re.m_end].
    rewrite (Hunfold (Re.Build_Match p (p + n) gd) eq_refl).
    rewrite <- substring_drop.
    apply (unfolds_match A text from pos p n F (weave A text (p + n) ms));
      try assumption.
    + intros q Hq. now apply match_here_chosen_none, Hbefore.
    + apply IH.
Qed.

Lemma unfolds_first_match (from pos : nat) (r : exc (list Segment)) :
  Unfolds A text from pos r ->
  forall (p n : nat) (F : FoldedArgument) (segments : list Segment),
    from <= p <= String.length text ->
    (forall q, from <= q < p -> chosen A (PyStr.drop q text) = None) ->
    chosen A (PyStr.drop p text) = Some (F, n) ->
    r = Ok segments ->
    exists values rest,
      unfold F (substring p n text) = Ok values
      /\ segments
         = Literal (PyStr.slice pos p text) :: Folded values :: rest.
Proof.
  intros [from' pos' Hnone|from' pos' p' n' F' r' Hp' Hbefore' Hchosen' Hrest]
    p n F segments Hp Hbefore Hchosen Hr.
  - rewrite (Hnone p Hp) in Hchosen. discriminate.
  - destruct (Nat.lt_trichotomy p p') as [Hlt|[->|Hgt]].
    + rewrite Hbefore' in Hchosen by lia. discriminate.
    + rewrite Hchosen' in Hchosen. injection Hchosen as -> ->.
      destruct (unfold F (substring p' n text)) as [values|e];
        [|discriminate Hr].
      destruct r' as [rest|e]; [|discriminate Hr].
      cbn [bind] in Hr. injection Hr as <-. now exists values, rest.
    + rewrite Hbefore in Hchosen' by lia. discriminate.
Qed.

End Order.

(** C3.  When the two folded arguments have different names, the items
    [unfold_arguments] builds are those of one scan of the escaped text from
    left to right: each match starts at the first position, from where the
    scan stands, at which the Range or the Enumeration pattern matches, and
    the scan resumes at the end of the match, so that no match starts in
    text already passed.  At that position the Range is checked first: where
    its pattern matches, the Folded item is what the Range's [unfold] makes
    of the text the Range pattern matched, whatever the Enumeration pattern
    matches there; the Enumeration's [unfold] is used only where the Range
    pattern fails. *)
Theorem unfolder_checks_range_before_enumeration (U : Utils) (A : Argument)
  (arguments : list string) :
  name (RangeFoldedArgument A) <> name (EnumerationFoldedArgument A) ->
  let text := escape U (PyStr.join " " arguments) in
  Unfolds A text 0 0 (unfold_segments U A arguments)
  /\ unfold_arguments U A arguments
     = (segments <- unfold_segments U A arguments ;;
        Ok (map (fun seg => map (hex2str U) (segment_values seg)) segments))
  /\ (forall (p n : nat) (segments : list Segment),
        p <= String.length text ->
        (forall q, q < p -> chosen A (PyStr.drop q text) = None) ->
        regex (RangeFoldedArgument A) (PyStr.drop p text) = Some n ->
        unfold_segments U A arguments = Ok segments ->
        exists values rest,
          unfold (RangeFoldedArgument A) (substring p n text) = Ok values
          /\ segments
             = Literal (PyStr.slice 0 p text) :: Folded values :: rest)
  /\ (forall (p n : nat) (segments : list Segment),
        p <= String.length text ->
        (forall q, q < p -> chosen A (PyStr.drop q text) = None) ->
        regex (RangeFoldedArgument A) (PyStr.drop p text) = None ->
        regex (EnumerationFoldedArgument A) (PyStr.drop p text) = Some n ->
        unfold_segments U A arguments = Ok segments ->
        exists values rest,
          unfold (EnumerationFoldedArgument A) (substring p n text) = Ok values
          /\ segments
             = Literal (PyStr.slice 0 p text) :: Folded values :: rest).
Proof.
  intros Hnames text.
  assert (Hrun : Unfolds A text 0 0 (unfold_segments U A arguments)).
  { unfold unfold_segments. fold text. rewrite unfold_run_weave by assumption.
    apply scanned_unfolds, finditer_scanned. }
  split; [exact Hrun | split; [|split]].
  - rewrite unfold_arguments_weave by assumption.
    unfold unfold_segments. now rewrite unfold_run_weave.
  - intros p n segments Hp Hbefore Hrange Hs.
    apply (unfolds_first_match A text 0 0 _ Hrun p n _ segments);
      [lia | intros q Hq; apply Hbefore; lia | | exact Hs].
    unfold chosen. now rewrite Hrange.
  - intros p n segments Hp Hbefore Hrange Henum Hs.
    apply (unfolds_first_match A text 0 0 _ Hrun p n _ segments);
      [lia | intros q Hq; apply Hbefore; lia | | exact Hs].
    unfold chosen. now rewrite Hrange, Henum.
Qed.

Lemma unfolder_checks_range_before_enumeration_witness :
  regex (EnumerationFoldedArgument SpecModel.argument)
    (PyStr.drop 2 "x=[1:3] y=[a b]") = Some 5
  /\ exists values rest,
       unfold (RangeFoldedArgument SpecModel.argument) "[1:3]" = Ok values
       /\ [Literal "x="; Folded ["1"; "2"; "3"]; Literal " y=";
           Folded ["a"; "b"]; Literal ""]
          = Literal "x=" :: Folded values :: rest.
Proof.
  split; [reflexivity|].
  destruct (unfolder_checks_range_before_enumeration SpecModel.utils
              SpecModel.argument ["x=[1:3]"; "y=[a b]"])
    as (_ & _ & Hrange & _); [discriminate|].
  apply (Hrange 2 5); [vm_compute; lia | | reflexivity | reflexivity].
  intros q Hq. do 2 (destruct q as [|q]; [reflexivity|]). lia.
Defined.

